(** * pysal.cg.collection: geometries, bounding boxes and feature collections

    A shallow embedding of [pysal/cg/collection.py] and the properties of
    its bounding-box algorithms, of the [idVariable] index and of the
    GeoJSON save/load cycle.

    Conventions of the embedding.
    - A Python exception is a value of [exn]; a computation that may raise
      returns a [result].
    - A coordinate number is an extended rational [num]: Python's ints and
      floats without NaN, with the two infinities of [np.Infinity].
    - A JSON array of numbers, nested to any depth, is a [coords] tree and is
      stored verbatim in the geometry, as the source does. Each class reads
      it at the depth it needs; a payload of another shape is outside the
      model and is reported as [TypeError].
    - [numpy] is an external library. An array is kept as the list of its
      rows, each row the items found under one first index. [np.array],
      which chooses a dtype, converts the items to it and turns nested
      lists into further dimensions, is a parameter of the development
      (class [Numpy]); [min]/[max] along axis 0, [np.unique], [shape[0]],
      [flatten] and [tolist] are functions of the rows. *)

From Stdlib Require Import QArith Lqa.
From stdpp Require Import gmap strings list.

Set Default Proof Using "Type".
Local Open Scope string_scope.
Local Open Scope list_scope.
Local Open Scope nat_scope.

(** ** Exceptions and results *)

(** A number: an int or a float, or one of the infinities. *)
Inductive num :=
  | NegInf
  | Fin (q : Q)
  | PosInf.

(** The keys the module looks up: property names (or [None]), type tags
    (strings in GeoJSON, a number being hashable too) and feature ids. *)
Inductive pykey :=
  | KNone
  | KStr (s : string)
  | KInt (i : nat)
  | KNum (x : num).

Inductive exn :=
  | KeyError (k : pykey)
  | ValueError
  | IndexError
  | TypeError
  | AttributeError.

Inductive result (A : Type) :=
  | OK (a : A)
  | Raise (e : exn).
Arguments OK {A} a.
Arguments Raise {A} e.

#[export] Instance result_ret : MRet result := @OK.
#[export] Instance result_bind : MBind result := λ A B f m,
  match m with
  | OK a => f a
  | Raise e => Raise e
  end.

(** [[f(x) for x in l]], stopping at the first exception. *)
Fixpoint traverse {A B} (f : A → result B) (l : list A) : result (list B) :=
  match l with
  | [] => OK []
  | x :: r => y ← f x; ys ← traverse f r; OK (y :: ys)
  end.

(** [l[i]] on a Python list. *)
Definition item {A} (l : list A) (i : nat) : result A :=
  match l !! i with
  | Some x => OK x
  | None => Raise IndexError
  end.

(** ** Numbers *)

(** Python's [a < b]. *)
Definition num_lt (a b : num) : bool :=
  match a, b with
  | PosInf, _ => false
  | _, NegInf => false
  | NegInf, _ => true
  | _, PosInf => true
  | Fin p, Fin q => negb (Qle_bool q p)
  end.

(** Python's [a <= b]. *)
Definition num_le (a b : num) : bool :=
  match a, b with
  | NegInf, _ => true
  | _, PosInf => true
  | Fin p, Fin q => Qle_bool p q
  | _, _ => false
  end.

Declare Scope num_scope.
Delimit Scope num_scope with num.
Notation "a <=? b" := (num_le a b) : num_scope.
Notation "a <? b" := (num_lt a b) : num_scope.

(** [min(a, b)] and [max(a, b)]: the builtins keep the first argument unless
    the second is strictly smaller (resp. strictly greater). *)
Definition py_min2 (a b : num) : num := if (b <? a)%num then b else a.
Definition py_max2 (a b : num) : num := if (a <? b)%num then b else a.

(** [min(xs)] and [max(xs)] on a list: [ValueError] on the empty list. *)
Definition py_min (xs : list num) : result num :=
  match xs with
  | [] => Raise ValueError
  | x :: r => OK (fold_left py_min2 r x)
  end.

Definition py_max (xs : list num) : result num :=
  match xs with
  | [] => Raise ValueError
  | x :: r => OK (fold_left py_max2 r x)
  end.

(** ** Coordinate payloads *)

#[warnings="-register-all"]
Inductive coords :=
  | Num (x : num)
  | Arr (l : list coords).

Definition point := list num.
Definition box := (num * num * num * num)%type.

Definition as_num (c : coords) : result num :=
  match c with
  | Num x => OK x
  | Arr _ => Raise TypeError
  end.

Definition as_seq {A} (f : coords → result A) (c : coords) : result (list A) :=
  match c with
  | Arr l => traverse f l
  | Num _ => Raise TypeError
  end.

Definition as_point : coords → result point := as_seq as_num.
Definition as_points : coords → result (list point) := as_seq as_point.
Definition as_rings : coords → result (list (list point)) := as_seq as_points.
Definition as_polygons : coords → result (list (list (list point))) :=
  as_seq as_rings.

(** The Python list [[l, b, r, t]] (or the tuple with these items). *)
Definition box_value (b : box) : coords :=
  let '(x0, y0, x1, y1) := b in Arr [Num x0; Num y0; Num x1; Num y1].

Definition nums_value (l : list num) : coords := Arr (Num <$> l).

(** ** ring_bbox *)

Definition ring_bbox (ring : list point) : result box :=
  xs ← traverse (λ c, item c 0) ring;
  ys ← traverse (λ c, item c 1) ring;
  x0 ← py_min xs;
  y0 ← py_min ys;
  x1 ← py_max xs;
  y1 ← py_max ys;
  OK (x0, y0, x1, y1).

(** ** The geometry classes *)

Inductive GeometryClass :=
  | Point
  | Polygon
  | LineString
  | MultiPoint
  | MultiPolygon
  | MultiLineString.

#[export] Instance GeometryClass_eq_dec : EqDecision GeometryClass.
Proof. solve_decision. Defined.

(** [(np.Infinity, np.Infinity, -np.Infinity, -np.Infinity)]. *)
Definition sentinel : box := (PosInf, PosInf, NegInf, NegInf).

(** One pass of the loop bodies
    [x0 = min(l, x0); y0 = min(b, y0); x1 = max(r, x1); y1 = max(t, y1)]. *)
Definition widen (acc lbrt : box) : box :=
  let '(x0, y0, x1, y1) := acc in
  let '(l, b, r, t) := lbrt in
  (py_min2 l x0, py_min2 b y0, py_max2 r x1, py_max2 t y1).

(** [Polygon.build_bbox]: the loop over the rings, carrying the running box
    and [self.bboxes]. *)
Fixpoint Polygon_rings (rings : list (list point)) (acc : box)
    (bboxes : list coords) : result (box * list coords) :=
  match rings with
  | [] => OK (acc, bboxes)
  | ring :: rest =>
      lbrt ← ring_bbox ring;
      Polygon_rings rest (widen acc lbrt) (bboxes ++ [box_value lbrt])
  end.

Definition Polygon_build_bbox (coordinates : list (list point))
    : result (coords * option coords) :=
  '(acc, bboxes) ← Polygon_rings coordinates sentinel [];
  OK (box_value acc, Some (Arr bboxes)).

(** [MultiPolygon.build_bbox]: the inner loop is the one of [Polygon], on a
    fresh [pbbox] and the shared running box. *)
Fixpoint MultiPolygon_polygons (polygons : list (list (list point)))
    (acc : box) (bboxes : list coords) : result (box * list coords) :=
  match polygons with
  | [] => OK (acc, bboxes)
  | polygon :: rest =>
      '(acc', pbbox) ← Polygon_rings polygon acc [];
      MultiPolygon_polygons rest acc' (bboxes ++ [Arr pbbox])
  end.

Definition MultiPolygon_build_bbox (coordinates : list (list (list point)))
    : result (coords * option coords) :=
  '(acc, bboxes) ← MultiPolygon_polygons coordinates sentinel [];
  OK (box_value acc, Some (Arr bboxes)).

(** [LineString.build_bbox]. *)
Definition LineString_build_bbox (coordinates : list point)
    : result (coords * option coords) :=
  b ← ring_bbox coordinates;
  OK (box_value b, None).

(** [MultiLineString.build_bbox]: [LineString(lineString).bbox] builds a
    line string, hence calls [ring_bbox], for each member. *)
Fixpoint MultiLineString_lines (lines : list (list point)) (acc : box)
    : result box :=
  match lines with
  | [] => OK acc
  | lineString :: rest =>
      lbrt ← ring_bbox lineString;
      MultiLineString_lines rest (widen acc lbrt)
  end.

Definition MultiLineString_build_bbox (coordinates : list (list point))
    : result (coords * option coords) :=
  acc ← MultiLineString_lines coordinates sentinel;
  OK (box_value acc, None).

(** ** numpy

    [np.array(rows)] on a list of rows. numpy picks one dtype for the whole
    array and converts every item to it (ints beside floats become floats,
    numbers beside strings become strings), and it reads lists nested in the
    rows as further dimensions. The array is kept here as the list of its
    rows: [m !! i] lists the items of [m[i]], flattened and converted.
    Which array numpy builds from given rows is not fixed here: the
    development holds for every function with the two properties below,
    which numpy's has. The empty list gives an array without rows, and the
    rows of an array have one size (numpy makes no array of numbers from
    rows of different lengths). *)
Class Numpy (A : Type) := {
  np_array : list (list A) → result (list (list A));
  np_array_empty : np_array [] = OK [];
  np_array_rows rows m r1 r2 :
    np_array rows = OK m → r1 ∈ m → r2 ∈ m → length r1 = length r2
}.

(** [m.min(axis=0).tolist()] and [m.max(axis=0).tolist()]: the reduction
    down the columns; numpy raises [ValueError] on an array without rows. *)
Definition np_min_axis0 (m : list point) : result (list num) :=
  match m with
  | [] => Raise ValueError
  | r :: rest => OK (fold_left (zip_with (λ a x, py_min2 a x)) rest r)
  end.

Definition np_max_axis0 (m : list point) : result (list num) :=
  match m with
  | [] => Raise ValueError
  | r :: rest => OK (fold_left (zip_with (λ a x, py_max2 a x)) rest r)
  end.

(** [Point.build_bbox] returns the coordinates themselves. *)
Definition Point_build_bbox (coordinates : coords)
    : result (coords * option coords) :=
  OK (coordinates, None).

(** The value of [self.type] set by each constructor. *)
Definition type_of (c : GeometryClass) : string :=
  match c with
  | Point => "Point"
  | Polygon => "Polygon"
  | LineString => "LineString"
  | MultiPoint => "MultiPoint"
  | MultiPolygon => "MultiPolygon"
  | MultiLineString => "MultiLineString"
  end.

(** A geometry object: [type], [coordinates], the private [__bbox] read
    through the [bbox] property, and [bboxes], which only [Polygon] and
    [MultiPolygon] set. *)
Record Geometry := mkGeometry {
  gclass : GeometryClass;
  type : string;
  coordinates : coords;
  bbox : coords;
  bboxes : option coords
}.

Section Geometries.
Context `{!Numpy num}.

(** [MultiPoint.build_bbox]. *)
Definition MultiPoint_build_bbox (coordinates : list point)
    : result (coords * option coords) :=
  m ← np_array coordinates;
  minc ← np_min_axis0 m;
  maxc ← np_max_axis0 m;
  OK (nums_value (minc ++ maxc), None).

(** Dynamic dispatch of [self.build_bbox()] in [Geometry.setbbox]. *)
Definition build_bbox (c : GeometryClass) (coordinates : coords)
    : result (coords * option coords) :=
  match c with
  | Point => Point_build_bbox coordinates
  | Polygon => as_rings coordinates ≫= Polygon_build_bbox
  | LineString => as_points coordinates ≫= LineString_build_bbox
  | MultiPoint => as_points coordinates ≫= MultiPoint_build_bbox
  | MultiPolygon => as_polygons coordinates ≫= MultiPolygon_build_bbox
  | MultiLineString => as_rings coordinates ≫= MultiLineString_build_bbox
  end.

(** [cls(coordinates)]: [Geometry.__init__] with [bbox=None], then the
    subclass sets [self.type]. *)
Definition new_Geometry (c : GeometryClass) (coordinates : coords)
    : result Geometry :=
  '(bb, aux) ← build_bbox c coordinates;
  OK (mkGeometry c (type_of c) coordinates bb aux).

End Geometries.

(** The module-level dispatch table. *)
Definition geometryDispatcher : gmap string GeometryClass :=
  <["MultiLineString" := MultiLineString]>
  (<["MultiPolygon" := MultiPolygon]>
  (<["MultiPoint" := MultiPoint]>
  (<["LineString" := LineString]>
  (<["Polygon" := Polygon]>
  (<["Point" := Point]> ∅))))).

(** ** Feature collections *)

Section FeatureCollection.
(** [V] is the type of the property values, with Python's [==] decidable
    on it, and with numpy's arrays of such values. *)
Context {V : Type} `{!EqDecision V} `{!Numpy num} `{!Numpy V}.

(** The structure exchanged with the JSON collaborator, as far as the
    module reads or writes it: strings, coordinate payloads, property
    mappings, arrays and objects. A Python [dict] built key by key is the
    list of its items in insertion order. *)
#[warnings="-register-all"]
Inductive json :=
  | JStr (s : string)
  | JCoords (c : coords)
  | JProps (p : gmap string V)
  | JList (l : list json)
  | JDict (d : list (string * json)).

Fixpoint dict_get (d : list (string * json)) (k : string) : result json :=
  match d with
  | [] => Raise (KeyError (KStr k))
  | (k', v) :: rest => if decide (k' = k) then OK v else dict_get rest k
  end.

(** [j[k]] for a string key: only an object has such items. *)
Definition getitem (j : json) (k : string) : result json :=
  match j with
  | JDict d => dict_get d k
  | _ => Raise TypeError
  end.

Definition as_list (j : json) : result (list json) :=
  match j with
  | JList l => OK l
  | _ => Raise TypeError
  end.

Definition as_coords (j : json) : result coords :=
  match j with
  | JCoords c => OK c
  | _ => Raise TypeError
  end.

Definition as_props (j : json) : result (gmap string V) :=
  match j with
  | JProps p => OK p
  | _ => Raise TypeError
  end.

(** [geometryDispatcher[ft]]: a tag that is no key of the table raises
    the [KeyError] of that tag; a list or a dict is unhashable. *)
Definition dispatch (ft : json) : result GeometryClass :=
  match ft with
  | JStr tag =>
      match geometryDispatcher !! tag with
      | Some c => OK c
      | None => Raise (KeyError (KStr tag))
      end
  | JCoords (Num x) => Raise (KeyError (KNum x))
  | _ => Raise TypeError
  end.

(** The dict [f] with its two items [geometry] and [properties]. *)
Record Feature := mkFeature {
  geometry : Geometry;
  properties : gmap string V
}.

(** The attributes of a collection. [features] is a dict keyed by
    [0 .. n-1] in insertion order: the list of its values. The private
    attribute [__idVariable] is [None] while no assignment has bound it,
    [Some None] when it holds Python's [None]. *)
Record FeatureCollection := mkFeatureCollection {
  n_features : nat;
  features : list Feature;
  __idVariable : option (option string)
}.

(** [f[p]] on a property mapping. *)
Definition prop_item (f : gmap string V) (p : option string) : result V :=
  match p with
  | None => Raise (KeyError KNone)
  | Some k =>
      match f !! k with
      | Some v => OK v
      | None => Raise (KeyError (KStr k))
      end
  end.

(** [self.features[i]]. *)
Definition features_item (fs : list Feature) (i : nat) : result Feature :=
  match fs !! i with
  | Some f => OK f
  | None => Raise (KeyError (KInt i))
  end.

(** [idOrder.index(v)]. *)
Fixpoint index (l : list V) (v : V) : result nat :=
  match l with
  | [] => Raise ValueError
  | x :: rest => if decide (x = v) then OK 0 else i ← index rest v; OK (S i)
  end.

(** *** Methods: state and exceptions

    A method runs on the object and on the warnings emitted so far; it
    returns a value or raises, and leaves both behind. *)
Record world := mkWorld {
  self : FeatureCollection;
  warned : list string
}.

Definition method (A : Type) : Type := world → result A * world.

#[export] Instance method_ret : MRet method := λ A a w, (OK a, w).
#[export] Instance method_bind : MBind method := λ A B f m w,
  match m w with
  | (OK a, w') => f a w'
  | (Raise e, w') => (Raise e, w')
  end.

Definition lift {A} (r : result A) : method A := λ w, (r, w).

Definition attr {A} (f : FeatureCollection → A) : method A :=
  λ w, (OK (f (self w)), w).

(** [self.__idVariable], which raises while the attribute is unbound. *)
Definition get___idVariable : method (option string) := λ w,
  match __idVariable (self w) with
  | Some v => (OK v, w)
  | None => (Raise AttributeError, w)
  end.

(** [self.__idVariable = v]. *)
Definition set___idVariable (v : option string) : method unit := λ w,
  (OK (),
   mkWorld (mkFeatureCollection (n_features (self w)) (features (self w))
              (Some v))
           (warned w)).

(** [warnings.warn(msg)]. *)
Definition warn (msg : string) : method unit := λ w,
  (OK (), mkWorld (self w) (warned w ++ [msg])).

(** *** FeatureCollection.getPropertiesAsLists *)
Definition getPropertiesAsLists (props : list (option string))
    : method (list (list V)) :=
  n ← attr n_features;
  fs ← attr features;
  lift (traverse (λ i, f ← features_item fs i;
                       traverse (prop_item (properties f)) props)
                 (seq 0 n)).

(** *** FeatureCollection.getPropertiesAsArray *)
Definition getPropertiesAsArray (props : list (option string))
    : method (list (list V)) :=
  a ← getPropertiesAsLists props;
  lift (np_array a).

(** [np.unique(values)]: the distinct items of the flattened array (numpy
    sorts them; only their number is read here). [values.shape[0]] is the
    number of rows. *)
Definition np_unique (values : list (list V)) : list V :=
  remove_dups (concat values).

(** *** FeatureCollection.is_unique *)
Definition is_unique (values : list (list V)) : bool :=
  if decide (length (np_unique values) = length values) then true else false.

Definition not_unique_msg (property : string) : string :=
  let msg := (property ++ " is not uniquely valued. ")%string in
  (msg ++ " Cannot be used as idVariable")%string.

(** *** The idVariable property: getter and setter *)
Definition idVariable_get : method (option string) := get___idVariable.

Definition idVariable_set (property : option string) : method unit :=
  match property with
  | None => set___idVariable property
  | Some name =>
      values ← getPropertiesAsArray [property];
      if is_unique values then set___idVariable property
      else warn (not_unique_msg name)
  end.

(** *** FeatureCollection.getIdVariableOrder *)
Definition getIdVariableOrder : method (list (list V)) :=
  p ← get___idVariable;
  getPropertiesAsArray [p].

(** *** FeatureCollection.getFeatureIds
    [flatten().tolist()] is the concatenation of the rows. *)
Definition getFeatureIds (args : list V) : method (list nat) :=
  a ← getIdVariableOrder;
  let idOrder := concat a in
  lift (traverse (index idOrder) args).

(** Truth value of [args]: [None] and the empty list are false. *)
Definition truthy (args : option (list V)) : bool :=
  match args with
  | Some (_ :: _) => true
  | _ => false
  end.

Definition select_ids (args : option (list V)) : method (list nat) :=
  if truthy args then getFeatureIds (default [] args)
  else n ← attr n_features; mret (seq 0 n).

(** *** FeatureCollection.getFeatures
    The generator is run to its end: the list of what it yields. *)
Definition getFeatures (args : option (list V)) : method (list Feature) :=
  ids ← select_ids args;
  fs ← attr features;
  lift (traverse (features_item fs) ids).

(** *** FeatureCollection.getGeometries *)
Definition getGeometries (args : option (list V)) : method (list Geometry) :=
  ids ← select_ids args;
  fs ← attr features;
  lift (traverse (λ i, f ← features_item fs i; OK (geometry f)) ids).

(** *** FeatureCollection.saveAsGeoJson
    The value handed to [json.dump]. *)
Definition save_feature (feature : Feature) : json :=
  JDict [("type", JStr "Feature");
         ("geometry",
           JDict [("type", JStr (type (geometry feature)));
                  ("coordinates", JCoords (coordinates (geometry feature)))]);
         ("properties", JProps (properties feature))].

Definition saveAsGeoJson : method json :=
  fs ← attr features;
  mret (JDict [("type", JStr "FeatureCollection");
               ("features", JList (save_feature <$> fs))]).

(** *** FeatureCollection.__init__
    [data] is what [json.load] returned. [read_feature] is the body of the
    loop up to the dict [f]; the loop carries the local dict [features] and
    [self.n_features]. *)
Definition read_feature (feature : json) : result Feature :=
  ft ← getitem feature "geometry" ≫= λ g, getitem g "type";
  fc ← getitem feature "geometry" ≫= λ g, getitem g "coordinates";
  cls ← dispatch ft;
  g ← as_coords fc ≫= new_Geometry cls;
  p ← getitem feature "properties" ≫= as_props;
  OK (mkFeature g p).

Fixpoint load_features (records : list json) (features : list Feature)
    (n : nat) : result (list Feature * nat) :=
  match records with
  | [] => OK (features, n)
  | feature :: rest =>
      f ← read_feature feature;
      load_features rest (features ++ [f]) (S n)
  end.

Definition set_features (n : nat) (fs : list Feature) : method unit := λ w,
  (OK (), mkWorld (mkFeatureCollection n fs (__idVariable (self w)))
                  (warned w)).

Definition FeatureCollection_init (data : json) (idVariable : option string)
    : method unit :=
  records ← lift (getitem data "features" ≫= as_list);
  '(fs, n) ← lift (load_features records [] 0);
  set_features n fs;;
  idVariable_set idVariable.

(** [FeatureCollection(path, idVariable)]: a fresh object, then
    [__init__]; the caller gets the object only if [__init__] returns. *)
Definition blank : FeatureCollection := mkFeatureCollection 0 [] None.

Definition new_FeatureCollection (data : json) (idVariable : option string)
    (log : list string) : result FeatureCollection * list string :=
  match FeatureCollection_init data idVariable (mkWorld blank log) with
  | (OK _, w) => (OK (self w), warned w)
  | (Raise e, w) => (Raise e, warned w)
  end.

End FeatureCollection.

Arguments json V : clear implicits.
Arguments Feature V : clear implicits.
Arguments FeatureCollection V : clear implicits.
Arguments world V : clear implicits.

(** ** Vocabulary of the properties *)

Definition le (a b : num) : Prop := num_le a b = true.
Infix "⊑" := le (at level 70).

(** The pair [(x, y)] lies in the box [[x0, y0, x1, y1]]. *)
Definition inside (b : box) (x y : num) : Prop :=
  let '(x0, y0, x1, y1) := b in x0 ⊑ x ∧ x ⊑ x1 ∧ y0 ⊑ y ∧ y ⊑ y1.

(** The coordinate tuples reachable in a payload: the arrays of numbers
    found at any depth. *)
Inductive reaches : coords → point → Prop :=
  | reaches_here l p : as_point (Arr l) = OK p → reaches (Arr l) p
  | reaches_item l c p : c ∈ l → reaches c p → reaches (Arr l) p.

(** [m] is the least (resp. greatest) item of [xs]. *)
Definition is_min (m : num) (xs : list num) : Prop :=
  m ∈ xs ∧ ∀ z, z ∈ xs → m ⊑ z.
Definition is_max (m : num) (xs : list num) : Prop :=
  m ∈ xs ∧ ∀ z, z ∈ xs → z ⊑ m.

Definition left_of (b : box) : num := let '(l, _, _, _) := b in l.
Definition bottom_of (b : box) : num := let '(_, b, _, _) := b in b.
Definition right_of (b : box) : num := let '(_, _, r, _) := b in r.
Definition top_of (b : box) : num := let '(_, _, _, t) := b in t.

(** [u] is the componentwise union of the boxes [bs]: the minimum of their
    lower bounds and the maximum of their upper bounds, the empty union being
    the infinite box. *)
Definition is_union (u : box) (bs : list box) : Prop :=
  is_min (left_of u) (PosInf :: (left_of <$> bs))
  ∧ is_min (bottom_of u) (PosInf :: (bottom_of <$> bs))
  ∧ is_max (right_of u) (NegInf :: (right_of <$> bs))
  ∧ is_max (top_of u) (NegInf :: (top_of <$> bs)).

(** A sequence of coordinate tuples on which [ring_bbox] returns: it is not
    empty and every tuple has two items at least. *)
Definition dense (ring : list point) : Prop :=
  ring ≠ [] ∧ Forall (λ p : point, (2 ≤ length p)%nat) ring.

Section Vocabulary.
Context {V : Type} `{!EqDecision V} `{!Numpy num} `{!Numpy V}.

(** A payload of the shape the class requires, with no empty sequence of
    tuples under it; for a [MultiPoint], a sequence of tuples from which
    numpy builds an array that has a row. *)
Definition required_shape (c : GeometryClass) (payload : coords) : Prop :=
  match c with
  | Point => True
  | LineString => ∃ pts, as_points payload = OK pts ∧ dense pts
  | MultiPoint =>
      ∃ pts m, as_points payload = OK pts ∧ np_array pts = OK m ∧ m ≠ []
  | Polygon | MultiLineString =>
      ∃ rings, as_rings payload = OK rings ∧ Forall dense rings
  | MultiPolygon =>
      ∃ polygons, as_polygons payload = OK polygons
                  ∧ Forall (Forall dense) polygons
  end.

(** A feature record the constructor can read: a geometry with one of the
    six type tags and coordinates of the shape its class requires, and a
    property mapping. *)
Definition well_formed (r : json V) : Prop :=
  ∃ g tag cls c p,
    getitem r "geometry" = OK g
    ∧ getitem g "type" = OK (JStr tag)
    ∧ geometryDispatcher !! tag = Some cls
    ∧ getitem g "coordinates" = OK (JCoords c)
    ∧ required_shape cls c
    ∧ getitem r "properties" = OK (JProps p).

(** The rows that [getPropertiesAsLists] reads off a collection, and the
    array that [getPropertiesAsArray] makes of them. *)
Definition lists_of (fc : FeatureCollection V) (props : list (option string))
    : result (list (list V)) :=
  traverse (λ i, f ← features_item (features fc) i;
                 traverse (prop_item (properties f)) props)
           (seq 0 (n_features fc)).

Definition rows_of (fc : FeatureCollection V) (props : list (option string))
    : result (list (list V)) :=
  lists_of fc props ≫= np_array.

(** numpy keeps the rows as they are: the array built from them holds the
    same items, unconverted and at the same depth. *)
Definition kept (rows : list (list V)) : Prop := np_array rows = OK rows.

(** The feature has the requested key ([None] is a key no feature has). *)
Definition has_key (f : Feature V) (p : option string) : Prop :=
  ∃ k v, p = Some k ∧ properties f !! k = Some v.

(** A geometry as its constructor builds it from its coordinates. *)
Definition built (g : Geometry) : Prop :=
  new_Geometry (gclass g) (coordinates g) = OK g.

(** The invariant of a collection: the count is the number of features
    and every geometry is as built. *)
Definition consistent (fc : FeatureCollection V) : Prop :=
  n_features fc = length (features fc)
  ∧ Forall (λ f, built (geometry f)) (features fc).

(** The keys of a JSON object. *)
Definition keys (j : json V) : list string :=
  match j with
  | JDict d => d.*1
  | _ => []
  end.

(** No [bbox] entry in the collection object, in its feature objects or
    in their geometry objects. *)
Definition no_bbox_entry (d : json V) : Prop :=
  ("bbox" ∉ keys d)
  ∧ ∀ records, getitem d "features" = OK (JList records) →
      Forall (λ r, ("bbox" ∉ keys r)
                   ∧ ∀ g, getitem r "geometry" = OK g → "bbox" ∉ keys g)
             records.

(** The invariant of the index: while [idVariable] holds a key, the array
    of that key's column can be built and passes the test of the setter. *)
Definition indexed (fc : FeatureCollection V) : Prop :=
  ∀ k, __idVariable fc = Some (Some k) →
       ∃ arr, rows_of fc [Some k] = OK arr ∧ is_unique arr = true.

(** *** FeatureCollection.getGeometryCollection
    The generator is run to its end: [sf[f]] for the keys [f] of [sf] in
    their order. *)
Definition getGeometryCollection : method (V:=V) (list coords) :=
  sf ← attr features;
  mret ((λ f, coordinates (geometry f)) <$> sf).

(** A collection with another value of [__idVariable]. *)
Definition with_idVariable (fc : FeatureCollection V)
    (v : option (option string)) : FeatureCollection V :=
  mkFeatureCollection (n_features fc) (features fc) v.

(** The world after a sequence of assignments to [idVariable], whether they
    return or raise. *)
Definition assign_all (ks : list (option string)) (w : world V) : world V :=
  foldl (λ w k, (idVariable_set k w).2) w ks.

End Vocabulary.

(** The six type tags. *)
Definition geometry_types : list string :=
  ["Point"; "MultiPoint"; "LineString"; "MultiLineString"; "Polygon";
   "MultiPolygon"].

(** The nested Python value of the per-polygon, per-ring boxes. *)
Definition ring_boxes_value (bs : list box) : coords := Arr (box_value <$> bs).
Definition polygon_boxes_value (bss : list (list box)) : coords :=
  Arr (ring_boxes_value <$> bss).

(** The outcome of a computation, seen through a function of its value. *)
Definition rmap {A B} (h : A → B) (r : result A) : result B :=
  r ≫= λ a, OK (h a).

(** A box whose lower bounds do not exceed its upper bounds. *)
Definition proper (b : box) : Prop :=
  left_of b ⊑ right_of b ∧ bottom_of b ⊑ top_of b.

(** The box [b] lies in the box [u]. *)
Definition box_in (b u : box) : Prop :=
  left_of u ⊑ left_of b ∧ bottom_of u ⊑ bottom_of b
  ∧ right_of b ⊑ right_of u ∧ top_of b ⊑ top_of u.

(** The box [b] encloses the first two items of every tuple of [ring]. *)
Definition encloses (b : box) (ring : list point) : Prop :=
  ∀ x y rest, x :: y :: rest ∈ ring → inside b x y.

(** ** The examples

    The numbers, payloads and collections of the scenarios. Their
    coordinates and their [id] values are small integers, or lists of small
    integers: numpy holds them in an [int64] array, each item as given. *)
Definition int (z : Z) : num := Fin (inject_Z z).
Definition xy (x y : Z) : coords := Arr [Num (int x); Num (int y)].

(** [np.array] as it is on rows of small integers, which an [int64] array
    holds unchanged: the rows themselves when they have one length, and no
    array ([ValueError]) when they are ragged. It stands for numpy in the
    examples only. *)
Definition integer_array {A} (rows : list (list A)) : result (list (list A)) :=
  match rows with
  | [] => OK []
  | r :: rest =>
      if forallb (λ r', Nat.eqb (length r') (length r)) rest
      then OK rows else Raise ValueError
  end.

Definition integer_numpy (A : Type) : Numpy A.
Proof.
  refine {| np_array := integer_array |}; [reflexivity|].
  intros [|r rest] m r1 r2; simpl; [by intros [= <-] ?%elem_of_nil|].
  destruct (forallb _ rest) eqn:E; [|done]. intros [= <-].
  assert (∀ r', r' ∈ r :: rest → length r' = length r) as Hlen.
  { intros r' [->|Hr']%elem_of_cons; [done|].
    rewrite forallb_forall in E. apply Nat.eqb_eq, E.
    by apply list_elem_of_In. }
  intros H1 H2. by rewrite (Hlen r1), (Hlen r2).
Defined.

(** The coordinates of the examples and their integer properties. *)
Definition numpy_of_coordinates : Numpy num := integer_numpy num.
Definition numpy_of_integers : Numpy Z := integer_numpy Z.

(** A property value that is an integer or a list of integers. *)
Inductive idval :=
  | Atom (z : Z)
  | Items (l : list Z).

#[export] Instance idval_eq_dec : EqDecision idval.
Proof. solve_decision. Defined.

(** The integers under a value, and how many a list value holds. *)
Definition scalars (v : idval) : list idval :=
  match v with
  | Atom z => [Atom z]
  | Items l => Atom <$> l
  end.

Definition extent (v : idval) : option nat :=
  match v with
  | Atom _ => None
  | Items l => Some (length l)
  end.

(** [np.array] as it is on rows of such values, small integers again:
    lists of one length add a dimension to the array, whose row [i] then
    lists the integers of all the values of row [i]; integers beside lists,
    or lists of different lengths, make no array of integers ([ValueError]
    since numpy 1.24). It stands for numpy in the examples only. *)
Definition nested_array (rows : list (list idval))
    : result (list (list idval)) :=
  match rows with
  | [] => OK []
  | r :: rest =>
      if forallb (λ r', Nat.eqb (length r') (length r)) rest then
        match concat rows with
        | [] => OK rows
        | v :: vs =>
            if forallb (λ v', bool_decide (extent v' = extent v)) vs
            then OK ((λ row, concat (scalars <$> row)) <$> rows)
            else Raise ValueError
        end
      else Raise ValueError
  end.

Definition numpy_of_lists : Numpy idval.
Proof.
  refine {| np_array := nested_array |}; [reflexivity|].
  intros rows m r1 r2. unfold nested_array.
  destruct rows as [|r rest]; [by intros [= <-] ?%elem_of_nil|].
  destruct (forallb _ rest) eqn:E; [|done].
  assert (∀ r', r' ∈ r :: rest → length r' = length r) as Hlen.
  { intros r' [->|Hr']%elem_of_cons; [done|].
    rewrite forallb_forall in E. apply Nat.eqb_eq, E.
    by apply list_elem_of_In. }
  destruct (concat (r :: rest)) as [|v vs] eqn:Ec.
  { intros [= <-] H1 H2. by rewrite (Hlen r1), (Hlen r2). }
  destruct (forallb _ vs) eqn:Ev; [|done]. intros [= <-].
  assert (∀ v', v' ∈ concat (r :: rest) → extent v' = extent v) as Hext.
  { rewrite Ec. intros v' [->|Hv']%elem_of_cons; [done|].
    rewrite forallb_forall in Ev. eapply bool_decide_eq_true, Ev.
    by apply list_elem_of_In. }
  assert (∀ row, row ∈ r :: rest →
            length (concat (scalars <$> row))
            = length r * length (scalars v)) as Hrow.
  { intros row Hin. rewrite <- (Hlen row Hin).
    assert (∀ v', v' ∈ row → extent v' = extent v) as Hr.
    { intros v' Hv'. apply Hext, list_elem_of_In, in_concat.
      exists row. split; by apply list_elem_of_In. }
    clear -Hr. induction row as [|v' row IH]; [done|].
    rewrite fmap_cons. simpl. rewrite length_app, IH.
    - f_equal. specialize (Hr v' ltac:(left)).
      destruct v', v; simpl in *; try done.
      rewrite !length_fmap. congruence.
    - intros ? ?. apply Hr. by right. }
  intros H1 H2.
  change (r1 ∈ (λ row, concat (scalars <$> row)) <$> (r :: rest)) in H1.
  change (r2 ∈ (λ row, concat (scalars <$> row)) <$> (r :: rest)) in H2.
  apply list_elem_of_fmap in H1 as (row1 & -> & H1).
  apply list_elem_of_fmap in H2 as (row2 & -> & H2).
  by rewrite (Hrow row1), (Hrow row2).
Defined.

Section Examples.
#[local] Existing Instance numpy_of_coordinates.
#[local] Existing Instance numpy_of_integers.
#[local] Existing Instance numpy_of_lists.

(** Feature records with one integer property [id], and the collections
    of the two scenarios of the specification. *)
Definition feature_record (tag : string) (c : coords) (id : Z) : json Z :=
  JDict [("type", JStr "Feature");
         ("geometry", JDict [("type", JStr tag); ("coordinates", JCoords c)]);
         ("properties", JProps {[ "id" := id ]})].

Definition collection_of (records : list (json Z)) : json Z :=
  JDict [("type", JStr "FeatureCollection"); ("features", JList records)].

Definition three_points : json Z :=
  collection_of [feature_record "Point" (xy 0 0) 10;
                 feature_record "Point" (xy 1 1) 20;
                 feature_record "Point" (xy 2 2) 30].

Definition two_points_same_id : json Z :=
  collection_of [feature_record "Point" (xy 0 0) 5;
                 feature_record "Point" (xy 1 1) 5].

Definition circle_after_point : json Z :=
  collection_of [feature_record "Point" (xy 0 0) 1;
                 feature_record "Circle" (xy 0 0) 2].

Definition circle_after_empty_line : json Z :=
  collection_of [feature_record "LineString" (Arr []) 1;
                 feature_record "Circle" (xy 0 0) 2].

(** The object a constructor call returns ([blank] if it raises). *)
Definition constructed (data : json Z) (idVariable : option string)
    : FeatureCollection Z :=
  match new_FeatureCollection data idVariable [] with
  | (OK fc, _) => fc
  | (Raise _, _) => blank
  end.

Definition three_points_by_id : world Z :=
  mkWorld (constructed three_points (Some "id")) [].

Definition two_points_no_id : world Z :=
  mkWorld (constructed two_points_same_id None) [].

(** Two points whose [id] is a list of integers. *)
Definition point_with_list (c : coords) (id : list Z) : json idval :=
  JDict [("type", JStr "Feature");
         ("geometry", JDict [("type", JStr "Point");
                             ("coordinates", JCoords c)]);
         ("properties", JProps {[ "id" := Items id ]})].

Definition two_points_with_lists (id0 id1 : list Z) : json idval :=
  JDict [("type", JStr "FeatureCollection");
         ("features", JList [point_with_list (xy 0 0) id0;
                             point_with_list (xy 1 1) id1])].

(** What the constructor gives on them, with the warnings it emitted. *)
Definition constructed_with_lists (id0 id1 : list Z) (idVariable : option string)
    : result (FeatureCollection idval) * list string :=
  new_FeatureCollection (two_points_with_lists id0 id1) idVariable [].

End Examples.

(** ** Order lemmas on numbers *)

Lemma Qle_bool_reflect p q : reflect (p <= q)%Q (Qle_bool p q).
Proof. apply iff_reflect. symmetry. apply Qle_bool_iff. Qed.

(** Case analysis on the numbers in sight, then linear arithmetic. *)
Ltac num_solve :=
  intros;
  repeat match goal with
         | x : num |- _ => destruct x
         end;
  cbv beta iota delta [le py_min2 py_max2 num_lt num_le] in *;
  repeat match goal with
         | |- context [Qle_bool ?p ?q] => destruct (Qle_bool_reflect p q)
         | H : context [Qle_bool ?p ?q] |- _ =>
             destruct (Qle_bool_reflect p q)
         end;
  cbv beta iota delta [negb] in *;
  try congruence; try tauto;
  repeat match goal with
         | |- context [Qle_bool ?p ?q] => destruct (Qle_bool_reflect p q)
         end;
  try congruence; try tauto; try (exfalso; lra).

Lemma le_refl a : a ⊑ a.
Proof. num_solve. Qed.

Lemma le_trans a b c : a ⊑ b → b ⊑ c → a ⊑ c.
Proof. num_solve. Qed.

Lemma py_min2_le_l a b : py_min2 a b ⊑ a.
Proof. num_solve. Qed.

Lemma py_min2_le_r a b : py_min2 a b ⊑ b.
Proof. num_solve. Qed.

Lemma py_max2_ge_l a b : a ⊑ py_max2 a b.
Proof. num_solve. Qed.

Lemma py_max2_ge_r a b : b ⊑ py_max2 a b.
Proof. num_solve. Qed.

Lemma py_min2_pick a b : py_min2 a b = a ∨ py_min2 a b = b.
Proof. unfold py_min2. destruct (num_lt b a); auto. Qed.

Lemma py_max2_pick a b : py_max2 a b = a ∨ py_max2 a b = b.
Proof. unfold py_max2. destruct (num_lt a b); auto. Qed.

(** ** Results and comprehensions *)

Lemma bind_OK {A B} (m : result A) (f : A → result B) b :
  m ≫= f = OK b ↔ ∃ a, m = OK a ∧ f a = OK b.
Proof.
  destruct m as [a|e]; simpl; split.
  - intros H. by exists a.
  - by intros (a' & [= ->] & H).
  - discriminate.
  - by intros (a' & [=] & _).
Qed.

(** Splits a hypothesis [x ← m; k = OK v] into its steps. *)
Ltac inv_bind :=
  repeat match goal with
         | H : OK _ = OK _ |- _ => injection H as H; try subst
         | H : Raise _ = OK _ |- _ => discriminate H
         | H : (_, _) = (_, _) |- _ => injection H as; try subst
         | H : mbind _ _ = OK _ |- _ =>
             let a := fresh "a" in
             let E := fresh "E" in
             apply bind_OK in H as (a & E & H)
         | H : (let '(_, _) := ?p in _) = OK _ |- _ => destruct p
         end.

Lemma traverse_OK {A B} (f : A → result B) l ys :
  traverse f l = OK ys ↔ Forall2 (λ x y, f x = OK y) l ys.
Proof.
  revert ys. induction l as [|x l IH]; intros ys; simpl.
  - split; [intros [= <-]; constructor | by inversion 1].
  - split.
    + intros H. inv_bind. constructor; [done | by apply IH].
    + inversion 1 as [|? y ? ys' Hx Hl]; subst.
      rewrite Hx. simpl. apply IH in Hl. by rewrite Hl.
Qed.

Lemma traverse_length {A B} (f : A → result B) l ys :
  traverse f l = OK ys → length ys = length l.
Proof. rewrite traverse_OK. intros H. symmetry. by eapply Forall2_length. Qed.

(** ** min and max of a list *)

Lemma fold_min_spec r x :
  fold_left py_min2 r x ∈ x :: r ∧ ∀ z, z ∈ x :: r → fold_left py_min2 r x ⊑ z.
Proof.
  revert x. induction r as [|y r IH]; intros x; simpl.
  - split; [by left|]. intros z ->%list_elem_of_singleton. apply le_refl.
  - destruct (IH (py_min2 x y)) as [Hin Hle]. split.
    + apply elem_of_cons in Hin as [->|Hin].
      * destruct (py_min2_pick x y) as [->| ->]; rewrite !elem_of_cons; auto.
      * rewrite !elem_of_cons; auto.
    + intros z Hz.
      assert (fold_left py_min2 r (py_min2 x y) ⊑ py_min2 x y) as Hm
        by (apply Hle; by left).
      apply elem_of_cons in Hz as [->|Hz].
      * eapply le_trans; [exact Hm | apply py_min2_le_l].
      * apply elem_of_cons in Hz as [->|Hz].
        -- eapply le_trans; [exact Hm | apply py_min2_le_r].
        -- apply Hle. by right.
Qed.

Lemma fold_max_spec r x :
  fold_left py_max2 r x ∈ x :: r ∧ ∀ z, z ∈ x :: r → z ⊑ fold_left py_max2 r x.
Proof.
  revert x. induction r as [|y r IH]; intros x; simpl.
  - split; [by left|]. intros z ->%list_elem_of_singleton. apply le_refl.
  - destruct (IH (py_max2 x y)) as [Hin Hle]. split.
    + apply elem_of_cons in Hin as [->|Hin].
      * destruct (py_max2_pick x y) as [->| ->]; rewrite !elem_of_cons; auto.
      * rewrite !elem_of_cons; auto.
    + intros z Hz.
      assert (py_max2 x y ⊑ fold_left py_max2 r (py_max2 x y)) as Hm
        by (apply Hle; by left).
      apply elem_of_cons in Hz as [->|Hz].
      * eapply le_trans; [apply py_max2_ge_l | exact Hm].
      * apply elem_of_cons in Hz as [->|Hz].
        -- eapply le_trans; [apply py_max2_ge_r | exact Hm].
        -- apply Hle. by right.
Qed.

Lemma py_min_OK xs m : py_min xs = OK m → m ∈ xs ∧ ∀ z, z ∈ xs → m ⊑ z.
Proof. destruct xs; [done|]. intros [= <-]. apply fold_min_spec. Qed.

Lemma py_max_OK xs m : py_max xs = OK m → m ∈ xs ∧ ∀ z, z ∈ xs → z ⊑ m.
Proof. destruct xs; [done|]. intros [= <-]. apply fold_max_spec. Qed.

Lemma py_min_nonempty xs : xs ≠ [] → ∃ m, py_min xs = OK m.
Proof. destruct xs; [done|]. intros _. by eexists. Qed.

Lemma py_max_nonempty xs : xs ≠ [] → ∃ m, py_max xs = OK m.
Proof. destruct xs; [done|]. intros _. by eexists. Qed.

(** ** Boxes *)

Lemma elem_of_concat {A} (x : A) (ls : list (list A)) :
  x ∈ concat ls ↔ ∃ l, l ∈ ls ∧ x ∈ l.
Proof.
  rewrite list_elem_of_In, in_concat.
  split; intros (l & H1 & H2); exists l; by rewrite ?list_elem_of_In in *.
Qed.

Lemma traverse_elem_of {A B} (f : A → result B) l ys x :
  traverse f l = OK ys → x ∈ l → ∃ y, y ∈ ys ∧ f x = OK y.
Proof.
  rewrite traverse_OK. intros H Hx.
  apply list_elem_of_lookup in Hx as [i Hi].
  destruct (Forall2_lookup_l _ _ _ _ _ H Hi) as (y & Hy & Hf).
  exists y. split; [|done]. apply list_elem_of_lookup. by exists i.
Qed.

Lemma ring_bbox_inside ring b x y rest :
  ring_bbox ring = OK b → (x :: y :: rest) ∈ ring → inside b x y.
Proof.
  unfold ring_bbox. intros H Hp. inv_bind.
  repeat match goal with
         | H : traverse _ _ = OK _ |- _ =>
             destruct (traverse_elem_of _ _ _ _ H Hp) as (? & ? & [= <-]);
             clear H
         | H : py_min _ = OK _ |- _ => apply py_min_OK in H as [_ ?]
         | H : py_max _ = OK _ |- _ => apply py_max_OK in H as [_ ?]
         end.
  repeat split; auto.
Qed.

Lemma widen_inside_acc acc b x y : inside acc x y → inside (widen acc b) x y.
Proof.
  destruct acc as [[[x0 y0] x1] y1], b as [[[l b] r] t]. simpl.
  intros (H1 & H2 & H3 & H4). repeat split.
  - eapply le_trans; [apply py_min2_le_r | done].
  - eapply le_trans; [done | apply py_max2_ge_r].
  - eapply le_trans; [apply py_min2_le_r | done].
  - eapply le_trans; [done | apply py_max2_ge_r].
Qed.

Lemma widen_inside_new acc b x y : inside b x y → inside (widen acc b) x y.
Proof.
  destruct acc as [[[x0 y0] x1] y1], b as [[[l b] r] t]. simpl.
  intros (H1 & H2 & H3 & H4). repeat split.
  - eapply le_trans; [apply py_min2_le_l | done].
  - eapply le_trans; [done | apply py_max2_ge_l].
  - eapply le_trans; [apply py_min2_le_l | done].
  - eapply le_trans; [done | apply py_max2_ge_l].
Qed.

Lemma fold_widen_inside_acc bs acc x y :
  inside acc x y → inside (fold_left widen bs acc) x y.
Proof.
  revert acc. induction bs as [|b bs IH]; intros acc H; simpl; [done|].
  by apply IH, widen_inside_acc.
Qed.

Lemma fold_widen_inside bs acc b x y :
  b ∈ bs → inside b x y → inside (fold_left widen bs acc) x y.
Proof.
  revert acc. induction bs as [|b' bs IH]; intros acc Hb H; simpl.
  - by apply elem_of_nil in Hb.
  - apply elem_of_cons in Hb as [->|Hb].
    + by apply fold_widen_inside_acc, widen_inside_new.
    + by apply IH.
Qed.

(** ** The loops of the bounding-box builders *)

Lemma Polygon_rings_OK rings acc bboxes acc' bboxes' :
  Polygon_rings rings acc bboxes = OK (acc', bboxes') ↔
  ∃ bs, Forall2 (λ ring b, ring_bbox ring = OK b) rings bs
        ∧ acc' = fold_left widen bs acc
        ∧ bboxes' = bboxes ++ (box_value <$> bs).
Proof.
  revert acc bboxes. induction rings as [|ring rings IH]; intros acc bboxes.
  - simpl. split.
    + intros [= <- <-]. exists []. by rewrite app_nil_r.
    + intros (bs & ->%Forall2_nil_inv_l & -> & ->). by rewrite app_nil_r.
  - simpl. split.
    + intros H. inv_bind. apply IH in H as (bs & Hbs & -> & ->).
      exists (a :: bs). split; [by constructor|]. split; [done|].
      by rewrite <- app_assoc.
    + intros (bs & Hbs & -> & ->).
      apply Forall2_cons_inv_l in Hbs as (b & bs' & Hb & Hbs & ->).
      rewrite Hb. simpl. apply IH. exists bs'. split; [done|].
      split; [done|]. by rewrite <- app_assoc.
Qed.

Lemma MultiLineString_lines_OK lines acc acc' :
  MultiLineString_lines lines acc = OK acc' ↔
  ∃ bs, Forall2 (λ line b, ring_bbox line = OK b) lines bs
        ∧ acc' = fold_left widen bs acc.
Proof.
  revert acc. induction lines as [|line lines IH]; intros acc.
  - simpl. split.
    + intros [= <-]. by exists [].
    + by intros (bs & ->%Forall2_nil_inv_l & ->).
  - simpl. split.
    + intros H. inv_bind. apply IH in H as (bs & Hbs & ->).
      exists (a :: bs). split; [by constructor | done].
    + intros (bs & Hbs & ->).
      apply Forall2_cons_inv_l in Hbs as (b & bs' & Hb & Hbs & ->).
      rewrite Hb. simpl. apply IH. by exists bs'.
Qed.

Lemma MultiPolygon_polygons_OK polygons acc bboxes acc' bboxes' :
  MultiPolygon_polygons polygons acc bboxes = OK (acc', bboxes') ↔
  ∃ bss, Forall2 (Forall2 (λ ring b, ring_bbox ring = OK b)) polygons bss
         ∧ acc' = fold_left widen (concat bss) acc
         ∧ bboxes' = bboxes ++ (ring_boxes_value <$> bss).
Proof.
  revert acc bboxes. induction polygons as [|polygon polygons IH];
    intros acc bboxes.
  - simpl. split.
    + intros [= <- <-]. exists []. by rewrite app_nil_r.
    + intros (bs & ->%Forall2_nil_inv_l & -> & ->). by rewrite app_nil_r.
  - simpl. split.
    + intros H. inv_bind.
      apply Polygon_rings_OK in E as (bs & Hbs & -> & ->).
      apply IH in H as (bss & Hbss & -> & ->).
      exists (bs :: bss). split; [by constructor|]. split.
      * simpl. by rewrite fold_left_app.
      * by rewrite <- app_assoc.
    + intros (bss & Hbss & -> & ->).
      apply Forall2_cons_inv_l in Hbss as (bs & bss' & Hbs & Hbss & ->).
      assert (Polygon_rings polygon acc []
              = OK (fold_left widen bs acc, box_value <$> bs)) as ->.
      { apply Polygon_rings_OK. by exists bs. }
      simpl. apply IH. exists bss'. split; [done|]. split.
      * simpl. by rewrite fold_left_app.
      * by rewrite <- app_assoc.
Qed.

(** ** Reading a payload at a fixed depth *)

Lemma as_num_OK c x : as_num c = OK x → c = Num x.
Proof. destruct c; simpl; congruence. Qed.

Lemma as_seq_OK {A} (f : coords → result A) c ys :
  as_seq f c = OK ys → ∃ l, c = Arr l ∧ traverse f l = OK ys.
Proof. destruct c as [|l]; simpl; [done|]. intros H. by exists l. Qed.

Lemma reaches_Num x q : ¬ reaches (Num x) q.
Proof. inversion 1. Qed.

(** An array that reads as a non-empty tuple of numbers does not read as a
    sequence of arrays. *)
Lemma tuple_not_nested {A} (f : coords → result A) l q ys :
  as_point (Arr l) = OK q → q ≠ [] → traverse (as_seq f) l = OK ys → False.
Proof.
  unfold as_point. simpl. destruct l as [|c l]; simpl.
  - by intros [= <-].
  - intros H _ H'. inv_bind. apply as_num_OK in E1 as ->. done.
Qed.

Lemma reaches_point c p q : as_point c = OK p → reaches c q → q = p.
Proof.
  intros Hp Hq. destruct Hq as [l q Hq|l c q Hc Hq]; [congruence|].
  apply as_seq_OK in Hp as (l' & [= <-] & Hp).
  destruct (traverse_elem_of _ _ _ _ Hp Hc) as (x & _ & ->%as_num_OK).
  by apply reaches_Num in Hq.
Qed.

Lemma reaches_points c pts q :
  as_points c = OK pts → reaches c q → q ≠ [] → q ∈ pts.
Proof.
  intros Hp Hq Hne. apply as_seq_OK in Hp as (l' & -> & Hp).
  inversion Hq as [l q' Hh|l c q' Hc Hq']; subst.
  - destruct (tuple_not_nested _ _ _ _ Hh Hne Hp).
  - destruct (traverse_elem_of _ _ _ _ Hp Hc) as (p & Hin & Hcp).
    by rewrite (reaches_point _ _ _ Hcp Hq').
Qed.

Lemma reaches_rings c rings q :
  as_rings c = OK rings → reaches c q → q ≠ [] →
  ∃ ring, ring ∈ rings ∧ q ∈ ring.
Proof.
  intros Hp Hq Hne. apply as_seq_OK in Hp as (l' & -> & Hp).
  inversion Hq as [l q' Hh|l c q' Hc Hq']; subst.
  - destruct (tuple_not_nested _ _ _ _ Hh Hne Hp).
  - destruct (traverse_elem_of _ _ _ _ Hp Hc) as (ring & Hin & Hcp).
    exists ring. split; [done|]. by eapply reaches_points.
Qed.

Lemma reaches_polygons c polygons q :
  as_polygons c = OK polygons → reaches c q → q ≠ [] →
  ∃ polygon ring, polygon ∈ polygons ∧ ring ∈ polygon ∧ q ∈ ring.
Proof.
  intros Hp Hq Hne. apply as_seq_OK in Hp as (l' & -> & Hp).
  inversion Hq as [l q' Hh|l c q' Hc Hq']; subst.
  - destruct (tuple_not_nested _ _ _ _ Hh Hne Hp).
  - destruct (traverse_elem_of _ _ _ _ Hp Hc) as (polygon & Hin & Hcp).
    destruct (reaches_rings _ _ _ Hcp Hq' Hne) as (ring & Hr & Hqr).
    by exists polygon, ring.
Qed.

(** ** The column reductions of MultiPoint *)

Section Geometry_properties.
Context `{!Numpy num}.

Lemma fold_zip_min2 rest a b :
  Forall (λ p : point, length p = 2) rest →
  ∃ a' b', fold_left (zip_with (λ a x, py_min2 a x)) rest [a; b] = [a'; b']
           ∧ a' ⊑ a ∧ b' ⊑ b
           ∧ ∀ x y, [x; y] ∈ rest → a' ⊑ x ∧ b' ⊑ y.
Proof.
  revert a b. induction rest as [|p rest IH]; intros a b Hall; simpl.
  - exists a, b. split; [done|]. split; [apply le_refl|].
    split; [apply le_refl|]. by intros x y ?%elem_of_nil.
  - apply Forall_cons in Hall as [Hp Hall].
    destruct p as [|x [|y [|? ?]]]; try done. simpl.
    destruct (IH (py_min2 a x) (py_min2 b y) Hall)
      as (a' & b' & -> & Ha & Hb & Hrest).
    exists a', b'. split; [done|]. split; [|split].
    + eapply le_trans; [done | apply py_min2_le_l].
    + eapply le_trans; [done | apply py_min2_le_l].
    + intros x' y' [[= -> ->]|Hin]%elem_of_cons; [|by apply Hrest].
      split; (eapply le_trans; [done | apply py_min2_le_r]).
Qed.

Lemma fold_zip_max2 rest a b :
  Forall (λ p : point, length p = 2) rest →
  ∃ a' b', fold_left (zip_with (λ a x, py_max2 a x)) rest [a; b] = [a'; b']
           ∧ a ⊑ a' ∧ b ⊑ b'
           ∧ ∀ x y, [x; y] ∈ rest → x ⊑ a' ∧ y ⊑ b'.
Proof.
  revert a b. induction rest as [|p rest IH]; intros a b Hall; simpl.
  - exists a, b. split; [done|]. split; [apply le_refl|].
    split; [apply le_refl|]. by intros x y ?%elem_of_nil.
  - apply Forall_cons in Hall as [Hp Hall].
    destruct p as [|x [|y [|? ?]]]; try done. simpl.
    destruct (IH (py_max2 a x) (py_max2 b y) Hall)
      as (a' & b' & -> & Ha & Hb & Hrest).
    exists a', b'. split; [done|]. split; [|split].
    + eapply le_trans; [apply py_max2_ge_l | done].
    + eapply le_trans; [apply py_max2_ge_l | done].
    + intros x' y' [[= -> ->]|Hin]%elem_of_cons; [|by apply Hrest].
      split; (eapply le_trans; [apply py_max2_ge_r | done]).
Qed.

Lemma MultiPoint_build_bbox_inside pts bb aux x y :
  np_array pts = OK pts →
  MultiPoint_build_bbox pts = OK (bb, aux) → [x; y] ∈ pts →
  ∃ b, bb = box_value b ∧ inside b x y.
Proof.
  unfold MultiPoint_build_bbox. intros Em H Hin. rewrite Em in H.
  assert (Forall (λ p : point, length p = 2) pts) as Hall.
  { apply Forall_forall. intros p Hp.
    by rewrite (np_array_rows pts pts p [x; y] Em). }
  destruct pts as [|r rest]; [done|].
  apply Forall_cons in Hall as [Hr Hall].
  destruct r as [|a [|b [|? ?]]]; try done.
  destruct (fold_zip_min2 rest a b Hall) as (x0 & y0 & Emin & Hx0 & Hy0 & Hmin).
  destruct (fold_zip_max2 rest a b Hall) as (x1 & y1 & Emax & Hx1 & Hy1 & Hmax).
  unfold np_min_axis0, np_max_axis0 in H. simpl in H.
  rewrite Emin, Emax in H. injection H as <- <-.
  exists (x0, y0, x1, y1). split; [done|]. simpl.
  apply elem_of_cons in Hin as [[= -> ->]|Hin]; [done|].
  destruct (Hmin x y Hin), (Hmax x y Hin). done.
Qed.

(** ** Bounding boxes enclose the coordinates *)

(** C1, as the code has it. For every [LineString], [MultiLineString],
    [Polygon] and [MultiPolygon] that the constructor returns, every
    coordinate tuple reachable in [coordinates] whose first two items are
    [x] and [y] lies in the computed box: [bbox[0] <= x <= bbox[2]] and
    [bbox[1] <= y <= bbox[3]]. For a [MultiPoint], whose box lists the
    minima and then the maxima of all the columns of a numpy array, this
    holds when the tuple is the pair [[x, y]] and the array holds the
    coordinates of the points as they are stored. *)
Theorem bbox_encloses_coordinates c payload g x y rest :
  new_Geometry c payload = OK g →
  c ≠ Point →
  reaches payload (x :: y :: rest) →
  (c = MultiPoint →
   rest = [] ∧ ∃ pts, as_points payload = OK pts ∧ np_array pts = OK pts) →
  coordinates g = payload ∧ ∃ b, bbox g = box_value b ∧ inside b x y.
Proof.
  unfold new_Geometry. intros H Hc Hq Hpair.
  destruct (build_bbox c payload) as [[bb aux]|] eqn:Hb; [|done].
  injection H as <-. simpl. split; [done|].
  destruct c; simpl in Hb; try done;
    apply bind_OK in Hb as (v & Hv & Hb).
  - (* Polygon *)
    destruct (reaches_rings _ _ _ Hv Hq) as (ring & Hring & Hin); [done|].
    unfold Polygon_build_bbox in Hb.
    destruct (Polygon_rings v sentinel []) as [[acc bbs]|] eqn:Hl; [|done].
    injection Hb as <- <-.
    apply Polygon_rings_OK in Hl as (bs & Hbs & -> & _).
    eexists. split; [done|].
    apply list_elem_of_lookup in Hring as [i Hi].
    destruct (Forall2_lookup_l _ _ _ _ _ Hbs Hi) as (b & Hb & Hrb).
    eapply fold_widen_inside; [by eapply list_elem_of_lookup_2|].
    by eapply ring_bbox_inside.
  - (* LineString *)
    pose proof (reaches_points _ _ _ Hv Hq) as Hin.
    unfold LineString_build_bbox in Hb.
    destruct (ring_bbox v) as [b|] eqn:Hr; [|done]. injection Hb as <- <-.
    eexists. split; [done|]. eapply ring_bbox_inside; [done|]. by apply Hin.
  - (* MultiPoint *)
    destruct (Hpair eq_refl) as (-> & pts & Hpts & Hkept).
    rewrite Hv in Hpts. injection Hpts as <-.
    pose proof (reaches_points _ _ _ Hv Hq) as Hin.
    eapply MultiPoint_build_bbox_inside; [done|done|]. by apply Hin.
  - (* MultiPolygon *)
    destruct (reaches_polygons _ _ _ Hv Hq)
      as (polygon & ring & Hpol & Hring & Hin); [done|].
    unfold MultiPolygon_build_bbox in Hb.
    destruct (MultiPolygon_polygons v sentinel []) as [[acc bbs]|] eqn:Hl;
      [|done].
    injection Hb as <- <-.
    apply MultiPolygon_polygons_OK in Hl as (bss & Hbss & -> & _).
    eexists. split; [done|].
    apply list_elem_of_lookup in Hpol as [i Hi].
    destruct (Forall2_lookup_l _ _ _ _ _ Hbss Hi) as (bs & Hbs & Hpb).
    apply list_elem_of_lookup in Hring as [j Hj].
    destruct (Forall2_lookup_l _ _ _ _ _ Hpb Hj) as (b & Hb & Hrb).
    eapply fold_widen_inside; [|by eapply ring_bbox_inside].
    apply elem_of_concat. exists bs.
    split; by eapply list_elem_of_lookup_2.
  - (* MultiLineString *)
    destruct (reaches_rings _ _ _ Hv Hq) as (line & Hline & Hin); [done|].
    unfold MultiLineString_build_bbox in Hb.
    destruct (MultiLineString_lines v sentinel) as [acc|] eqn:Hl; [|done].
    injection Hb as <- <-.
    apply MultiLineString_lines_OK in Hl as (bs & Hbs & ->).
    eexists. split; [done|].
    apply list_elem_of_lookup in Hline as [i Hi].
    destruct (Forall2_lookup_l _ _ _ _ _ Hbs Hi) as (b & Hb & Hrb).
    eapply fold_widen_inside; [by eapply list_elem_of_lookup_2|].
    by eapply ring_bbox_inside.
Qed.

(** ** The constructors return on well-shaped payloads *)

Lemma traverse_total {A B} (f : A → result B) l :
  Forall (λ x, ∃ y, f x = OK y) l → ∃ ys, traverse f l = OK ys.
Proof.
  induction 1 as [|x l [y Hy] _ [ys IH]]; simpl; [by eexists|].
  rewrite Hy. simpl. rewrite IH. by eexists.
Qed.

Lemma ring_bbox_total ring : dense ring → ∃ b, ring_bbox ring = OK b.
Proof.
  intros [Hne Hlen]. unfold ring_bbox.
  destruct (traverse_total (λ c : list num, item c 0) ring) as [xs Hxs].
  { eapply Forall_impl; [done|]. intros [|x p] Hp; simpl in *; [lia|].
    by eexists. }
  destruct (traverse_total (λ c : list num, item c 1) ring) as [ys Hys].
  { eapply Forall_impl; [done|]. intros [|x [|y p]] Hp; simpl in *; try lia.
    by eexists. }
  rewrite Hxs, Hys. simpl.
  assert (xs ≠ []) as Hx.
  { intros ->. apply traverse_length in Hxs. by destruct ring. }
  assert (ys ≠ []) as Hy.
  { intros ->. apply traverse_length in Hys. by destruct ring. }
  destruct (py_min_nonempty xs Hx) as [x0 ->].
  destruct (py_min_nonempty ys Hy) as [y0 ->].
  destruct (py_max_nonempty xs Hx) as [x1 ->].
  destruct (py_max_nonempty ys Hy) as [y1 ->].
  by eexists.
Qed.

Lemma ring_boxes_total rings :
  Forall dense rings →
  ∃ bs, Forall2 (λ ring b, ring_bbox ring = OK b) rings bs.
Proof.
  induction 1 as [|ring rings Hr _ [bs IH]]; [by exists []|].
  destruct (ring_bbox_total ring Hr) as [b Hb].
  exists (b :: bs). by constructor.
Qed.

Lemma polygon_boxes_total polygons :
  Forall (Forall dense) polygons →
  ∃ bss, Forall2 (Forall2 (λ ring b, ring_bbox ring = OK b)) polygons bss.
Proof.
  induction 1 as [|polygon polygons Hp _ [bss IH]]; [by exists []|].
  destruct (ring_boxes_total polygon Hp) as [bs Hbs].
  exists (bs :: bss). by constructor.
Qed.

(** The constructor returns a geometry on every payload of the required
    shape. *)
Lemma new_Geometry_total c payload :
  required_shape c payload → ∃ g, new_Geometry c payload = OK g.
Proof.
  unfold new_Geometry. destruct c; simpl.
  - intros _. by eexists.
  - intros (rings & -> & Hd). simpl. unfold Polygon_build_bbox.
    destruct (ring_boxes_total rings Hd) as [bs Hbs].
    assert (Polygon_rings rings sentinel []
            = OK (fold_left widen bs sentinel, [] ++ (box_value <$> bs))) as ->.
    { apply Polygon_rings_OK. by exists bs. }
    by eexists.
  - intros (pts & -> & Hd). simpl. unfold LineString_build_bbox.
    destruct (ring_bbox_total pts Hd) as [b ->]. by eexists.
  - intros (pts & m & -> & Em & Hne). simpl. unfold MultiPoint_build_bbox.
    rewrite Em. destruct m; [done|]. by eexists.
  - intros (polygons & -> & Hd). simpl. unfold MultiPolygon_build_bbox.
    destruct (polygon_boxes_total polygons Hd) as [bss Hbss].
    assert (MultiPolygon_polygons polygons sentinel []
            = OK (fold_left widen (concat bss) sentinel,
                  [] ++ (ring_boxes_value <$> bss))) as ->.
    { apply MultiPolygon_polygons_OK. by exists bss. }
    by eexists.
  - intros (lines & -> & Hd). simpl. unfold MultiLineString_build_bbox.
    destruct (ring_boxes_total lines Hd) as [bs Hbs].
    assert (MultiLineString_lines lines sentinel
            = OK (fold_left widen bs sentinel)) as ->.
    { apply MultiLineString_lines_OK. by exists bs. }
    by eexists.
Qed.

(** ** Empty payloads *)

(** C5, as the code has it. From the empty coordinate sequence the three
    classes that fold over their members, [Polygon], [MultiPolygon] and
    [MultiLineString], are built without failure and get the infinite box
    [[+inf, +inf, -inf, -inf]]; [Point] is built with the empty tuple itself
    as its box; [LineString] and [MultiPoint], which take a minimum of the
    empty sequence, raise [ValueError]. *)
Theorem empty_payload_bbox :
  (∃ g, new_Geometry Polygon (Arr []) = OK g ∧ bbox g = box_value sentinel)
  ∧ (∃ g, new_Geometry MultiPolygon (Arr []) = OK g
          ∧ bbox g = box_value sentinel)
  ∧ (∃ g, new_Geometry MultiLineString (Arr []) = OK g
          ∧ bbox g = box_value sentinel)
  ∧ (∃ g, new_Geometry Point (Arr []) = OK g ∧ bbox g = Arr [])
  ∧ new_Geometry LineString (Arr []) = Raise ValueError
  ∧ new_Geometry MultiPoint (Arr []) = Raise ValueError.
Proof.
  repeat split; try by eexists.
  unfold new_Geometry, build_bbox, MultiPoint_build_bbox. simpl.
  by assert (np_array ([] : list point) = OK []) as -> by apply np_array_empty.
Qed.

(** ** The box of a MultiPolygon is the union of its ring boxes *)

Lemma fold_min_flip ls x :
  is_min (fold_left (λ a l, py_min2 l a) ls x) (x :: ls).
Proof.
  revert x. induction ls as [|l ls IH]; intros x; simpl.
  - split; [by left|]. intros z ->%list_elem_of_singleton. apply le_refl.
  - destruct (IH (py_min2 l x)) as [Hin Hle]. split.
    + apply elem_of_cons in Hin as [->|Hin].
      * destruct (py_min2_pick l x) as [->| ->]; rewrite !elem_of_cons; auto.
      * rewrite !elem_of_cons; auto.
    + intros z Hz.
      assert (fold_left (λ a l, py_min2 l a) ls (py_min2 l x) ⊑ py_min2 l x)
        as Hm by (apply Hle; by left).
      apply elem_of_cons in Hz as [->|Hz].
      * eapply le_trans; [exact Hm | apply py_min2_le_r].
      * apply elem_of_cons in Hz as [->|Hz].
        -- eapply le_trans; [exact Hm | apply py_min2_le_l].
        -- apply Hle. by right.
Qed.

Lemma fold_max_flip ls x :
  is_max (fold_left (λ a l, py_max2 l a) ls x) (x :: ls).
Proof.
  revert x. induction ls as [|l ls IH]; intros x; simpl.
  - split; [by left|]. intros z ->%list_elem_of_singleton. apply le_refl.
  - destruct (IH (py_max2 l x)) as [Hin Hle]. split.
    + apply elem_of_cons in Hin as [->|Hin].
      * destruct (py_max2_pick l x) as [->| ->]; rewrite !elem_of_cons; auto.
      * rewrite !elem_of_cons; auto.
    + intros z Hz.
      assert (py_max2 l x ⊑ fold_left (λ a l, py_max2 l a) ls (py_max2 l x))
        as Hm by (apply Hle; by left).
      apply elem_of_cons in Hz as [->|Hz].
      * eapply le_trans; [apply py_max2_ge_r | exact Hm].
      * apply elem_of_cons in Hz as [->|Hz].
        -- eapply le_trans; [apply py_max2_ge_l | exact Hm].
        -- apply Hle. by right.
Qed.

Lemma fold_widen_components bs x0 y0 x1 y1 :
  fold_left widen bs (x0, y0, x1, y1)
  = (fold_left (λ a l, py_min2 l a) (left_of <$> bs) x0,
     fold_left (λ a l, py_min2 l a) (bottom_of <$> bs) y0,
     fold_left (λ a l, py_max2 l a) (right_of <$> bs) x1,
     fold_left (λ a l, py_max2 l a) (top_of <$> bs) y1).
Proof.
  revert x0 y0 x1 y1. induction bs as [|[[[l b] r] t] bs IH]; intros; [done|].
  simpl. by rewrite IH.
Qed.

Lemma fold_widen_is_union bs : is_union (fold_left widen bs sentinel) bs.
Proof.
  unfold sentinel. rewrite fold_widen_components. unfold is_union. simpl.
  repeat split; try apply fold_min_flip; apply fold_max_flip.
Qed.

(** C7. The box of a [MultiPolygon] that the constructor returns is the
    componentwise union, minimum of the minima and maximum of the maxima, of
    the boxes that [ring_bbox] gives for every ring of every member polygon,
    and [bboxes] holds these boxes per polygon and per ring, in the order of
    the payload. *)
Theorem MultiPolygon_bbox_is_union payload g :
  new_Geometry MultiPolygon payload = OK g →
  ∃ polygons bss u,
    as_polygons payload = OK polygons
    ∧ Forall2 (Forall2 (λ ring b, ring_bbox ring = OK b)) polygons bss
    ∧ bbox g = box_value u
    ∧ is_union u (concat bss)
    ∧ bboxes g = Some (polygon_boxes_value bss).
Proof.
  unfold new_Geometry. intros H.
  destruct (build_bbox MultiPolygon payload) as [[bb aux]|] eqn:Hb; [|done].
  injection H as <-. simpl in *.
  apply bind_OK in Hb as (polygons & Hv & Hb).
  unfold MultiPolygon_build_bbox in Hb.
  destruct (MultiPolygon_polygons polygons sentinel []) as [[acc bbs]|] eqn:Hl;
    [|done].
  injection Hb as <- <-.
  apply MultiPolygon_polygons_OK in Hl as (bss & Hbss & -> & ->).
  exists polygons, bss, (fold_left widen (concat bss) sentinel).
  repeat split; try done; apply fold_widen_is_union.
Qed.

End Geometry_properties.

(** ** Feature collections: columns and lookups *)

Lemma remove_dups_length_le {A} `{!EqDecision A} (l : list A) :
  length (remove_dups l) ≤ length l.
Proof.
  induction l as [|x l IH]; simpl; [done|].
  destruct (decide_rel _ x l); simpl; lia.
Qed.

Lemma remove_dups_length {A} `{!EqDecision A} (l : list A) :
  length (remove_dups l) = length l ↔ NoDup l.
Proof.
  induction l as [|x l IH]; simpl.
  - split; [constructor | done].
  - rewrite NoDup_cons. pose proof (remove_dups_length_le l).
    destruct (decide_rel _ x l); simpl.
    + split; [lia | tauto].
    + rewrite <- IH. split; [intros [=]; auto | intros [_ ->]; done].
Qed.

Lemma concat_singletons {A} (col : list A) : concat ((λ v, [v]) <$> col) = col.
Proof.
  induction col as [|v col IH]; [done|]. rewrite fmap_cons. simpl. by f_equal.
Qed.

Lemma traverse_ext {A B} (f g : A → result B) l :
  (∀ x, f x = g x) → traverse f l = traverse g l.
Proof. intros H. induction l as [|x l IH]; simpl; [done|]. by rewrite H, IH. Qed.

Section FeatureCollection_properties.
Context {V : Type} `{!EqDecision V} `{!Numpy num} `{!Numpy V}.
Implicit Types (w : world V) (fc : FeatureCollection V) (f : Feature V).
Implicit Types (v : V) (col : list V) (arr : list (list V)).

(** *** Running the methods *)

Lemma getPropertiesAsLists_run props w :
  getPropertiesAsLists props w = (lists_of (self w) props, w).
Proof. done. Qed.

Lemma getPropertiesAsArray_run props w :
  getPropertiesAsArray props w = (rows_of (self w) props, w).
Proof.
  unfold getPropertiesAsArray. unfold mbind at 1, method_bind, lift.
  rewrite getPropertiesAsLists_run. unfold rows_of.
  by destruct (lists_of _ _).
Qed.

Lemma getIdVariableOrder_run w :
  getIdVariableOrder w
  = (match __idVariable (self w) with
     | Some p => rows_of (self w) [p]
     | None => Raise AttributeError
     end, w).
Proof.
  unfold getIdVariableOrder, get___idVariable.
  unfold mbind, method_bind.
  destruct (__idVariable (self w)); [|done].
  apply getPropertiesAsArray_run.
Qed.

Lemma getFeatureIds_run args w :
  getFeatureIds args w
  = ((getIdVariableOrder w).1 ≫= λ a, traverse (index (concat a)) args, w).
Proof.
  unfold getFeatureIds. unfold mbind at 1, method_bind, lift.
  rewrite getIdVariableOrder_run. simpl.
  destruct (__idVariable (self w)) as [p|]; [|done].
  by destruct (rows_of (self w) [p]).
Qed.

Lemma idVariable_set_run k w :
  idVariable_set (Some k) w
  = match rows_of (self w) [Some k] with
    | OK values =>
        if is_unique values then set___idVariable (Some k) w
        else warn (not_unique_msg k) w
    | Raise e => (Raise e, w)
    end.
Proof.
  unfold idVariable_set. unfold mbind, method_bind.
  rewrite getPropertiesAsArray_run.
  destruct (rows_of (self w) [Some k]) as [values|]; [|done].
  by destruct (is_unique values).
Qed.

(** *** The column of a property *)

Lemma lists_of_single fc k rows :
  lists_of fc [Some k] = OK rows →
  ∃ col, rows = (λ v, [v]) <$> col
         ∧ Forall2 (λ i v, ∃ f, features fc !! i = Some f
                                ∧ properties f !! k = Some v)
                   (seq 0 (n_features fc)) col.
Proof.
  unfold lists_of. intros Hrows. apply traverse_OK in Hrows.
  induction Hrows as [|i row ids rows Hrow _ (col & -> & IH)].
  - by exists [].
  - apply bind_OK in Hrow as (f & Hf & Hrow). simpl in Hrow.
    unfold features_item in Hf.
    destruct (features fc !! i) as [f'|] eqn:Hi; [|done].
    injection Hf as ->.
    destruct (properties f !! k) as [v|] eqn:Hv; [|done].
    injection Hrow as <-. exists (v :: col). split; [done|].
    constructor; [|done]. by exists f.
Qed.

(** The array of rows that numpy keeps is these rows. *)
Lemma rows_of_kept fc props rows :
  lists_of fc props = OK rows → kept rows → rows_of fc props = OK rows.
Proof. unfold rows_of, kept. intros -> Hk. exact Hk. Qed.

Lemma is_unique_column col :
  is_unique ((λ v, [v]) <$> col) = true ↔ NoDup col.
Proof.
  unfold is_unique, np_unique.
  rewrite concat_singletons, length_fmap, <- remove_dups_length.
  by destruct (decide _).
Qed.

(** The test of the setter on the rows of one key, as they are stored. *)
Lemma is_unique_stored fc k rows :
  lists_of fc [Some k] = OK rows →
  is_unique rows = true ↔ NoDup (concat rows).
Proof.
  intros (col & -> & _)%lists_of_single. rewrite concat_singletons.
  apply is_unique_column.
Qed.

(** *** list.index *)

Lemma index_OK l v i :
  index l v = OK i ↔ l !! i = Some v ∧ ∀ j, j < i → l !! j ≠ Some v.
Proof.
  revert i. induction l as [|x l IH]; intros i; simpl.
  - split; [done | by intros [? _]].
  - destruct (decide (x = v)) as [->|Hne].
    + split.
      * intros [= <-]. split; [done | lia].
      * intros [Hi Hfirst]. destruct i as [|i]; [done|].
        by destruct (Hfirst 0); [lia|].
    + split.
      * intros (i' & Hi' & [= <-])%bind_OK. apply IH in Hi' as [Hi' Hfirst].
        split; [done|]. intros [|j] Hj; simpl; [congruence|].
        apply Hfirst. lia.
      * intros [Hi Hfirst]. destruct i as [|i]; simpl in Hi; [congruence|].
        assert (index l v = OK i) as ->; [|done].
        apply IH. split; [done|]. intros j Hj. apply (Hfirst (S j)). lia.
Qed.

Lemma index_elem_of l v : v ∈ l → ∃ i, index l v = OK i.
Proof.
  induction l as [|x l IH]; simpl; [by intros ?%elem_of_nil|].
  destruct (decide (x = v)) as [->|Hne]; [by eexists|].
  intros [->|Hin]%elem_of_cons; [done|].
  destruct (IH Hin) as [i ->]. by eexists.
Qed.



Lemma traverse_features_item {B} (h : Feature V → B) (fs : list (Feature V)) :
  traverse (λ i, f ← features_item fs i; OK (h f)) (seq 0 (length fs))
  = OK (h <$> fs).
Proof.
  apply traverse_OK, Forall2_same_length_lookup_2.
  - by rewrite length_seq, length_fmap.
  - intros i j y [-> Hi]%lookup_seq (f & -> & Hf)%list_lookup_fmap_Some.
    unfold features_item. simpl. by rewrite Hf.
Qed.

(** *** The properties of the index *)


(** C9. With an empty list of values, as with no argument, [getFeatures]
    yields all the [n_features] features and [getGeometries] all their
    geometries, in the order of the ids [0 .. n-1]; no id is looked up. *)
Theorem getFeatures_empty_args w :
  n_features (self w) = length (features (self w)) →
  getFeatures (Some []) w = (OK (features (self w)), w)
  ∧ getFeatures None w = (OK (features (self w)), w)
  ∧ getGeometries (Some []) w = (OK (geometry <$> features (self w)), w)
  ∧ getGeometries None w = (OK (geometry <$> features (self w)), w).
Proof.
  intros Hn.
  pose proof (traverse_features_item id (features (self w))) as Hf.
  pose proof (traverse_features_item geometry (features (self w))) as Hg.
  rewrite list_fmap_id in Hf.
  assert (traverse (features_item (features (self w)))
                   (seq 0 (length (features (self w))))
          = OK (features (self w))) as Hf'.
  { rewrite <- Hf. apply traverse_ext. intros i.
    by destruct (features_item _ i). }
  unfold getFeatures, getGeometries, select_ids. simpl.
  unfold mbind, method_bind, attr, lift, mret, method_ret. simpl.
  rewrite Hn, Hf'. repeat split; f_equal; exact Hg.
Qed.

(** *** Construction *)

Lemma load_features_traverse (records : list (json V)) acc n :
  load_features records acc n
  = (new ← traverse read_feature records;
     OK (acc ++ new, n + length records)).
Proof.
  revert acc n. induction records as [|r records IH]; intros acc n; simpl.
  - by rewrite app_nil_r, Nat.add_0_r.
  - destruct (read_feature r) as [f|]; simpl; [|done]. rewrite IH.
    destruct (traverse read_feature records) as [new|]; simpl; [|done].
    by rewrite <- app_assoc, Nat.add_succ_r.
Qed.

Lemma new_FeatureCollection_run (data : json V) idv log :
  new_FeatureCollection data idv log
  = match getitem data "features" ≫= as_list with
    | Raise e => (Raise e, log)
    | OK records =>
        match traverse read_feature records with
        | Raise e => (Raise e, log)
        | OK fs =>
            match idVariable_set idv
                    (mkWorld (mkFeatureCollection (length fs) fs None) log)
            with
            | (OK _, w) => (OK (self w), warned w)
            | (Raise e, w) => (Raise e, warned w)
            end
        end
    end.
Proof.
  unfold new_FeatureCollection, FeatureCollection_init.
  unfold mbind at 1 2 3, method_bind, lift.
  destruct (getitem data "features" ≫= as_list) as [records|]; [|done].
  rewrite load_features_traverse.
  destruct (traverse read_feature records) as [fs|] eqn:Hfs; [|done].
  simpl. by rewrite (traverse_length _ _ _ Hfs).
Qed.

Lemma new_Geometry_built c payload g : new_Geometry c payload = OK g → built g.
Proof.
  unfold built, new_Geometry. intros H.
  destruct (build_bbox c payload) as [[bb aux]|] eqn:Hb; [|done].
  injection H as <-. simpl. by rewrite Hb.
Qed.

Lemma built_type g : built g → type g = type_of (gclass g).
Proof.
  unfold built, new_Geometry.
  destruct (build_bbox _ _) as [[bb aux]|]; [|done].
  simpl. by intros [= <-].
Qed.

Lemma read_feature_built (r : json V) f :
  read_feature r = OK f → built (geometry f).
Proof.
  unfold read_feature. intros H.
  apply bind_OK in H as (ft & _ & H). apply bind_OK in H as (fc & _ & H).
  apply bind_OK in H as (cls & _ & H). apply bind_OK in H as (g & Hg & H).
  apply bind_OK in H as (p & _ & [= <-]).
  apply bind_OK in Hg as (c & _ & Hg). simpl.
  by eapply new_Geometry_built.
Qed.

Lemma idVariable_set_features idv w r w' :
  idVariable_set idv w = (r, w') →
  features (self w') = features (self w)
  ∧ n_features (self w') = n_features (self w).
Proof.
  destruct idv as [k|]; [|by intros [= <- <-]].
  rewrite idVariable_set_run.
  destruct (rows_of (self w) [Some k]) as [values|]; [|by intros [= <- <-]].
  destruct (is_unique values); by intros [= <- <-].
Qed.

(** The constructor establishes the invariant, and the setter, the only
    method that assigns to the object, keeps it. *)
Lemma new_FeatureCollection_consistent (data : json V) idv log fc log' :
  new_FeatureCollection data idv log = (OK fc, log') → consistent fc.
Proof.
  rewrite new_FeatureCollection_run.
  destruct (getitem data "features" ≫= as_list) as [records|]; [|done].
  destruct (traverse read_feature records) as [fs|] eqn:Hfs; [|done].
  destruct (idVariable_set idv _) as [[[]|] w] eqn:Hset; [|done].
  intros [= <- <-]. apply idVariable_set_features in Hset as [Hf Hn].
  unfold consistent. rewrite Hf, Hn. simpl. split; [done|].
  apply traverse_OK in Hfs. apply Forall_forall. intros f Hin.
  apply list_elem_of_lookup in Hin as [i Hi].
  destruct (Forall2_lookup_r _ _ _ _ _ Hfs Hi) as (r & _ & Hr).
  by eapply read_feature_built.
Qed.

Lemma idVariable_set_consistent idv w r w' :
  idVariable_set idv w = (r, w') → consistent (self w) → consistent (self w').
Proof.
  intros [Hf Hn]%idVariable_set_features. unfold consistent.
  by rewrite Hf, Hn.
Qed.

(** *** Saving and loading *)

Lemma dispatcher_type_of c : geometryDispatcher !! type_of c = Some c.
Proof. by destruct c. Qed.

Lemma read_feature_save f :
  built (geometry f) → read_feature (save_feature f) = OK f.
Proof.
  intros Hb. unfold read_feature, save_feature. simpl.
  rewrite (built_type _ Hb), dispatcher_type_of. simpl.
  unfold built in Hb. rewrite Hb. simpl. by destruct f.
Qed.

Lemma traverse_read_feature_save (fs : list (Feature V)) :
  Forall (λ f, built (geometry f)) fs →
  traverse read_feature (save_feature <$> fs) = OK fs.
Proof.
  induction 1 as [|f fs Hf _ IH]; [done|].
  rewrite fmap_cons. simpl. by rewrite (read_feature_save f Hf), IH.
Qed.

(** C2. For every collection, one the constructor built and the setter
    may have changed since, loading the structure that [saveAsGeoJson]
    hands to the JSON writer gives a collection with the same number of
    features and, at every id, a feature with the same [type] tag, the
    same [coordinates] and the same [properties]; saving changes nothing,
    and the saved structure has no [bbox] entry. *)
Theorem save_load_round_trip w :
  consistent (self w) →
  ∃ d fc',
    saveAsGeoJson w = (OK d, w)
    ∧ new_FeatureCollection d None (warned w) = (OK fc', warned w)
    ∧ n_features fc' = n_features (self w)
    ∧ (∀ i f, features (self w) !! i = Some f →
         ∃ f', features fc' !! i = Some f'
               ∧ type (geometry f') = type (geometry f)
               ∧ coordinates (geometry f') = coordinates (geometry f)
               ∧ properties f' = properties f)
    ∧ no_bbox_entry d.
Proof.
  intros [Hn Hb]. eexists. eexists. split; [reflexivity|].
  rewrite new_FeatureCollection_run. simpl.
  rewrite (traverse_read_feature_save _ Hb). simpl.
  split; [reflexivity|]. simpl. split; [done|]. split.
  - intros i f Hi. by exists f.
  - split.
    + simpl. rewrite !not_elem_of_cons. by repeat split; try apply not_elem_of_nil.
    + intros records [= <-]. apply Forall_fmap, Forall_forall.
      intros f _. simpl. split.
      * rewrite !not_elem_of_cons. by repeat split; try apply not_elem_of_nil.
      * intros g [= <-]. simpl. rewrite !not_elem_of_cons.
        by repeat split; try apply not_elem_of_nil.
Qed.

(** *** Unknown type tags *)

Lemma dispatcher_unknown tag :
  tag ∉ geometry_types → geometryDispatcher !! tag = None.
Proof.
  unfold geometry_types, geometryDispatcher. rewrite !not_elem_of_cons.
  intros (? & ? & ? & ? & ? & ? & _).
  by rewrite !lookup_insert_ne, lookup_empty.
Qed.

Lemma read_feature_unknown (r g : json V) tag :
  getitem r "geometry" = OK g →
  getitem g "type" = OK (JStr tag) →
  tag ∉ geometry_types →
  ∃ e, read_feature r = Raise e
       ∧ ((∃ c, getitem g "coordinates" = OK c) → e = KeyError (KStr tag)).
Proof.
  intros Hg Ht Htag%dispatcher_unknown. unfold read_feature.
  rewrite Hg. simpl. rewrite Ht. simpl.
  destruct (getitem g "coordinates") as [c|e]; simpl.
  - rewrite Htag. by eexists.
  - exists e. split; [done|]. by intros [c [=]].
Qed.

Lemma traverse_Raise_at {A B} (h : A → result B) l i x e :
  l !! i = Some x → h x = Raise e → ∃ e', traverse h l = Raise e'.
Proof.
  revert i. induction l as [|y l IH]; intros [|i] Hi Hx; simpl in *;
    try done.
  - injection Hi as ->. rewrite Hx. by eexists.
  - destruct (h y); simpl; [|by eexists].
    destruct (IH i Hi Hx) as [e' ->]. by eexists.
Qed.

Lemma traverse_first_Raise {A B} (h : A → result B) l i x e ys :
  traverse h (take i l) = OK ys → l !! i = Some x → h x = Raise e →
  traverse h l = Raise e.
Proof.
  revert i ys. induction l as [|y l IH]; intros [|i] ys Ht Hi Hx;
    simpl in *; try done.
  - injection Hi as ->. by rewrite Hx.
  - destruct (h y); simpl in *; [|done].
    destruct (traverse h (take i l)) as [ys'|] eqn:Ht'; [|done].
    by rewrite (IH i ys' Ht' Hi Hx).
Qed.

(** A well-formed record is read without failure. *)
Lemma read_feature_well_formed (r : json V) :
  well_formed r → ∃ f, read_feature r = OK f.
Proof.
  intros (g & tag & cls & c & p & Hg & Ht & Hcls & Hc & Hshape & Hp).
  destruct (new_Geometry_total cls c Hshape) as [geo Hgeo].
  unfold read_feature. rewrite Hg. simpl. rewrite Ht, Hc. simpl.
  rewrite Hcls. simpl. rewrite Hgeo. simpl. rewrite Hp. simpl. by eexists.
Qed.

(** C6, as the code has it. When a record of the input carries a type
    tag outside the six known ones, the constructor raises and returns no
    collection. The records are read in order and the coordinates of a
    record before its tag is looked up, so the exception is the [KeyError]
    of the unknown tag when every record before that one is well formed (a
    known type tag, coordinates of the shape its class requires, a property
    mapping) and the record has coordinates. *)
Theorem unknown_type_aborts (data : json V) records i r g tag idv log :
  getitem data "features" = OK (JList records) →
  records !! i = Some r →
  getitem r "geometry" = OK g →
  getitem g "type" = OK (JStr tag) →
  tag ∉ geometry_types →
  (∃ e, new_FeatureCollection data idv log = (Raise e, log))
  ∧ (Forall well_formed (take i records) →
     (∃ c, getitem g "coordinates" = OK c) →
     new_FeatureCollection data idv log
     = (Raise (KeyError (KStr tag)), log)).
Proof.
  intros Hdata Hi Hg Ht Htag.
  destruct (read_feature_unknown r g tag Hg Ht Htag) as (e & Hr & He).
  rewrite new_FeatureCollection_run, Hdata. simpl. split.
  - destruct (traverse_Raise_at _ _ _ _ _ Hi Hr) as [e' ->]. by eexists.
  - intros Hwf Hc. rewrite (He Hc) in Hr.
    destruct (traverse_total read_feature (take i records)) as [fs Hfs].
    { eapply Forall_impl; [done|]. apply read_feature_well_formed. }
    by rewrite (traverse_first_Raise _ _ _ _ _ _ Hfs Hi Hr).
Qed.

(** *** The invariant of the index *)

Lemma idVariable_set_indexed idv w r w' :
  idVariable_set idv w = (r, w') → indexed (self w) → indexed (self w').
Proof.
  destruct idv as [k|]; [|by intros [= <- <-] _ k' [=]].
  rewrite idVariable_set_run.
  destruct (rows_of (self w) [Some k]) as [values|] eqn:Hrows;
    [|by intros [= <- <-]].
  destruct (is_unique values) eqn:Hu; [|by intros [= <- <-]].
  intros [= <- <-] _ k' [= <-]. simpl.
  change (rows_of (mkFeatureCollection _ _ _) [Some k])
    with (rows_of (self w) [Some k]).
  rewrite Hrows. by exists values.
Qed.

(** Every collection the constructor returns satisfies it. *)
Lemma new_FeatureCollection_indexed (data : json V) idv log fc log' :
  new_FeatureCollection data idv log = (OK fc, log') → indexed fc.
Proof.
  rewrite new_FeatureCollection_run.
  destruct (getitem data "features" ≫= as_list) as [records|]; [|done].
  destruct (traverse read_feature records) as [fs|]; [|done].
  destruct (idVariable_set idv _) as [[[]|] w] eqn:Hset; [|done].
  intros [= <- <-]. eapply idVariable_set_indexed; [done|].
  by intros k [=].
Qed.

End FeatureCollection_properties.

(** ** More on ring_bbox *)

Lemma traverse_elem_of_r {A B} (f : A → result B) l ys y :
  traverse f l = OK ys → y ∈ ys → ∃ x, x ∈ l ∧ f x = OK y.
Proof.
  rewrite traverse_OK. intros H Hy.
  apply list_elem_of_lookup in Hy as [i Hi].
  destruct (Forall2_lookup_r _ _ _ _ _ H Hi) as (x & Hx & Hf).
  exists x. split; [|done]. apply list_elem_of_lookup. by exists i.
Qed.

Lemma item_OK {A} (l : list A) i x : item l i = OK x ↔ l !! i = Some x.
Proof. unfold item. destruct (l !! i); split; congruence. Qed.

Lemma item_short {A} (l : list A) i : length l ≤ i → item l i = Raise IndexError.
Proof. intros H. unfold item. by rewrite lookup_ge_None_2. Qed.

Lemma traverse_item_short (ring : list point) i :
  Exists (λ p, length p ≤ i) ring →
  traverse (λ c, item c i) ring = Raise IndexError.
Proof.
  induction ring as [|p ring IH]; intros H; [by apply Exists_nil in H|].
  apply Exists_cons in H. simpl.
  destruct (item p i) as [x|e] eqn:Hp; simpl.
  - destruct H as [H|H].
    + by rewrite item_short in Hp.
    + by rewrite IH.
  - unfold item in Hp. case_match; by simplify_eq.
Qed.

Lemma traverse_item_Raise (ring : list point) i e :
  traverse (λ c, item c i) ring = Raise e → e = IndexError.
Proof.
  induction ring as [|p ring IH]; simpl; [done|].
  destruct (item p i) as [x|e'] eqn:Hp; simpl.
  - destruct (traverse (λ c : list num, item c i) ring); [done|].
    intros [= <-]. by apply IH.
  - intros [= <-]. unfold item in Hp. case_match; by simplify_eq.
Qed.

Lemma dense_not_short ring p : dense ring → p ∈ ring → ¬ length p < 2.
Proof.
  intros [_ Hall] Hp. rewrite Forall_forall in Hall.
  specialize (Hall p Hp). lia.
Qed.

Lemma ring_bbox_cases ring :
  (ring = [] ∧ ring_bbox ring = Raise ValueError)
  ∨ ((∃ p, p ∈ ring ∧ length p < 2) ∧ ring_bbox ring = Raise IndexError)
  ∨ (dense ring ∧ ∃ b, ring_bbox ring = OK b).
Proof.
  destruct ring as [|p0 ring]; [by left|]. right.
  destruct (Forall_Exists_dec (λ p : point, 2 ≤ length p)
              (λ p : point, length p < 2)
              (λ p, le_lt_dec 2 (length p)) (p0 :: ring)) as [Hall|Hex].
  - right. assert (dense (p0 :: ring)) as Hd by done.
    split; [done | by apply ring_bbox_total].
  - left. split.
    { apply Exists_exists in Hex as (p & Hp & Hlen). by exists p. }
    unfold ring_bbox.
    destruct (traverse (λ c : list num, item c 0) (p0 :: ring)) as [xs|e]
      eqn:Hxs.
    + rewrite traverse_item_short; [done|].
      eapply Exists_impl; [done|]. simpl. intros; lia.
    + by rewrite (traverse_item_Raise _ _ _ Hxs).
Qed.

(** X1. The three outcomes of [ring_bbox]: it raises [ValueError] exactly
    on the empty sequence, [IndexError] exactly when some tuple has fewer
    than two items, and returns a box exactly on a non-empty sequence of
    tuples of two items at least. *)
Theorem ring_bbox_outcome ring :
  (ring_bbox ring = Raise ValueError ↔ ring = [])
  ∧ (ring_bbox ring = Raise IndexError ↔ ∃ p, p ∈ ring ∧ length p < 2)
  ∧ ((∃ b, ring_bbox ring = OK b) ↔ dense ring).
Proof.
  destruct (ring_bbox_cases ring)
    as [[-> Hr]|[[(p & Hp & Hlen) Hr]|[Hd [b Hr]]]]; rewrite Hr.
  - split; [done|]. split.
    + split; [done|]. by intros (p & Hp%elem_of_nil & _).
    + split; [by intros [b [=]] | by intros [[] _]].
  - split; [|split].
    + split; [done|]. intros ->. by apply elem_of_nil in Hp.
    + split; [by exists p | done].
    + split; [by intros [b [=]]|]. intros Hd.
      by destruct (dense_not_short _ p Hd Hp).
  - split; [|split].
    + split; [done|]. intros ->. by destruct Hd.
    + split; [done|]. intros (p & Hp & Hlen).
      by destruct (dense_not_short _ p Hd Hp).
    + split; [done|]. intros _. by exists b.
Qed.

Lemma ring_bbox_OK_dense ring b : ring_bbox ring = OK b → dense ring.
Proof.
  intros H. destruct (ring_bbox_cases ring)
    as [[_ Hr]|[[_ Hr]|[Hd _]]]; congruence.
Qed.

Lemma ring_bbox_attained ring b :
  ring_bbox ring = OK b →
  (∃ p, p ∈ ring ∧ p !! 0 = Some (left_of b))
  ∧ (∃ p, p ∈ ring ∧ p !! 1 = Some (bottom_of b))
  ∧ (∃ p, p ∈ ring ∧ p !! 0 = Some (right_of b))
  ∧ (∃ p, p ∈ ring ∧ p !! 1 = Some (top_of b)).
Proof.
  unfold ring_bbox. intros H.
  apply bind_OK in H as (xs & Hxs & H). apply bind_OK in H as (ys & Hys & H).
  apply bind_OK in H as (x0 & Hx0 & H). apply bind_OK in H as (y0 & Hy0 & H).
  apply bind_OK in H as (x1 & Hx1 & H). apply bind_OK in H as (y1 & Hy1 & H).
  injection H as <-. simpl.
  apply py_min_OK in Hx0 as [Hx0 _]. apply py_min_OK in Hy0 as [Hy0 _].
  apply py_max_OK in Hx1 as [Hx1 _]. apply py_max_OK in Hy1 as [Hy1 _].
  destruct (traverse_elem_of_r _ _ _ _ Hxs Hx0) as (p0 & ? & ?%item_OK).
  destruct (traverse_elem_of_r _ _ _ _ Hys Hy0) as (p1 & ? & ?%item_OK).
  destruct (traverse_elem_of_r _ _ _ _ Hxs Hx1) as (p2 & ? & ?%item_OK).
  destruct (traverse_elem_of_r _ _ _ _ Hys Hy1) as (p3 & ? & ?%item_OK).
  repeat split; eauto.
Qed.

Lemma two_items (p : point) :
  2 ≤ length p → ∃ x y rest, p = x :: y :: rest.
Proof. destruct p as [|x [|y rest]]; simpl; try lia. by eauto. Qed.

Lemma ring_bbox_proper ring b : ring_bbox ring = OK b → proper b.
Proof.
  intros H. pose proof (ring_bbox_OK_dense _ _ H) as [Hne Hall].
  destruct ring as [|p ring]; [done|].
  apply Forall_cons in Hall as [Hp _].
  destruct (two_items p Hp) as (x & y & rest & ->).
  pose proof (ring_bbox_inside _ _ x y rest H) as Hin.
  destruct b as [[[l b] r] t]. destruct Hin as (? & ? & ? & ?); [by left|].
  split; simpl; by eapply le_trans.
Qed.

(** X2. The box that [ring_bbox] returns is the least box enclosing the
    tuples: it encloses the first two items of every tuple, each of its four
    bounds is the first or second item of some tuple, its lower bounds do
    not exceed its upper bounds, and it lies in every box that encloses the
    tuples. *)
Theorem ring_bbox_least ring b :
  ring_bbox ring = OK b →
  encloses b ring
  ∧ proper b
  ∧ ((∃ p, p ∈ ring ∧ p !! 0 = Some (left_of b))
     ∧ (∃ p, p ∈ ring ∧ p !! 1 = Some (bottom_of b))
     ∧ (∃ p, p ∈ ring ∧ p !! 0 = Some (right_of b))
     ∧ (∃ p, p ∈ ring ∧ p !! 1 = Some (top_of b)))
  ∧ ∀ b', encloses b' ring → box_in b b'.
Proof.
  intros H. split; [|split; [|split]].
  - intros x y rest Hp. by eapply ring_bbox_inside.
  - by eapply ring_bbox_proper.
  - by apply ring_bbox_attained.
  - intros b' Hb'. pose proof (ring_bbox_OK_dense _ _ H) as Hd.
    destruct (ring_bbox_attained _ _ H)
      as ((p0 & Hp0 & H0) & (p1 & Hp1 & H1) & (p2 & Hp2 & H2)
          & (p3 & Hp3 & H3)).
    assert (∀ p, p ∈ ring → ∃ x y rest, p = x :: y :: rest) as Htwo.
    { intros p Hp. apply two_items.
      pose proof (dense_not_short _ p Hd Hp). lia. }
    destruct (Htwo p0 Hp0) as (x0 & y0 & r0 & ->).
    destruct (Htwo p1 Hp1) as (x1 & y1 & r1 & ->).
    destruct (Htwo p2 Hp2) as (x2 & y2 & r2 & ->).
    destruct (Htwo p3 Hp3) as (x3 & y3 & r3 & ->).
    simpl in *. simplify_eq.
    pose proof (Hb' _ _ _ Hp0) as I0. pose proof (Hb' _ _ _ Hp1) as I1.
    pose proof (Hb' _ _ _ Hp2) as I2. pose proof (Hb' _ _ _ Hp3) as I3.
    destruct b' as [[[l' b'] r'] t']. unfold box_in. simpl in *. tauto.
Qed.

(** ** More on the boxes of the multi-part classes *)

Section Geometry_more.
Context `{!Numpy num}.

(** X3. The box of a [Polygon] that the constructor returns is the
    componentwise union of the boxes that [ring_bbox] gives for its rings,
    holes included, and [bboxes] holds these boxes in the order of the
    rings. *)
Theorem Polygon_bbox_is_union payload g :
  new_Geometry Polygon payload = OK g →
  ∃ rings bs u,
    as_rings payload = OK rings
    ∧ Forall2 (λ ring b, ring_bbox ring = OK b) rings bs
    ∧ bbox g = box_value u
    ∧ is_union u bs
    ∧ bboxes g = Some (ring_boxes_value bs).
Proof.
  unfold new_Geometry. intros H.
  destruct (build_bbox Polygon payload) as [[bb aux]|] eqn:Hb; [|done].
  injection H as <-. simpl in *.
  apply bind_OK in Hb as (rings & Hv & Hb). unfold Polygon_build_bbox in Hb.
  destruct (Polygon_rings rings sentinel []) as [[acc bbs]|] eqn:Hl; [|done].
  injection Hb as <- <-.
  apply Polygon_rings_OK in Hl as (bs & Hbs & -> & ->).
  exists rings, bs, (fold_left widen bs sentinel).
  repeat split; try done; apply fold_widen_is_union.
Qed.

(** X4. The box of a [MultiLineString] that the constructor returns is the
    componentwise union of the boxes that [ring_bbox] gives for its member
    line strings; the object has no [bboxes]. *)
Theorem MultiLineString_bbox_is_union payload g :
  new_Geometry MultiLineString payload = OK g →
  ∃ lines bs u,
    as_rings payload = OK lines
    ∧ Forall2 (λ line b, ring_bbox line = OK b) lines bs
    ∧ bbox g = box_value u
    ∧ is_union u bs
    ∧ bboxes g = None.
Proof.
  unfold new_Geometry. intros H.
  destruct (build_bbox MultiLineString payload) as [[bb aux]|] eqn:Hb;
    [|done].
  injection H as <-. simpl in *.
  apply bind_OK in Hb as (lines & Hv & Hb).
  unfold MultiLineString_build_bbox in Hb.
  destruct (MultiLineString_lines lines sentinel) as [acc|] eqn:Hl; [|done].
  injection Hb as <- <-.
  apply MultiLineString_lines_OK in Hl as (bs & Hbs & ->).
  exists lines, bs, (fold_left widen bs sentinel).
  repeat split; try done; apply fold_widen_is_union.
Qed.

Lemma MultiLineString_lines_as_Polygon_rings lines acc bboxes :
  MultiLineString_lines lines acc = rmap fst (Polygon_rings lines acc bboxes).
Proof.
  revert acc bboxes. induction lines as [|line lines IH]; intros acc bboxes;
    simpl; [done|].
  destruct (ring_bbox line) as [b|]; simpl; [|done]. apply IH.
Qed.

(** X5. On every payload a [MultiLineString] and a [Polygon] have the same
    outcome as far as the box goes: the same box when they are built, the
    same exception otherwise. *)
Theorem MultiLineString_bbox_as_Polygon payload :
  rmap bbox (new_Geometry MultiLineString payload)
  = rmap bbox (new_Geometry Polygon payload).
Proof.
  unfold new_Geometry, rmap. simpl.
  destruct (as_rings payload) as [rings|]; simpl; [|done].
  unfold MultiLineString_build_bbox, Polygon_build_bbox.
  rewrite (MultiLineString_lines_as_Polygon_rings rings sentinel []).
  unfold rmap. by destruct (Polygon_rings rings sentinel []) as [[acc bbs]|].
Qed.

(** ** The infinite box signals the absence of coordinates *)

Lemma sentinel_not_proper : ¬ proper sentinel.
Proof. by intros [? _]. Qed.

Lemma widen_proper acc b : proper b → proper (widen acc b).
Proof.
  destruct acc as [[[x0 y0] x1] y1], b as [[[l b] r] t].
  unfold proper. simpl. intros [H1 H2]. split.
  - eapply le_trans; [apply py_min2_le_l|].
    eapply le_trans; [done | apply py_max2_ge_l].
  - eapply le_trans; [apply py_min2_le_l|].
    eapply le_trans; [done | apply py_max2_ge_l].
Qed.

Lemma widen_proper_acc acc b : proper acc → proper (widen acc b).
Proof.
  destruct acc as [[[x0 y0] x1] y1], b as [[[l b] r] t].
  unfold proper. simpl. intros [H1 H2]. split.
  - eapply le_trans; [apply py_min2_le_r|].
    eapply le_trans; [done | apply py_max2_ge_r].
  - eapply le_trans; [apply py_min2_le_r|].
    eapply le_trans; [done | apply py_max2_ge_r].
Qed.

Lemma fold_widen_proper_acc bs acc :
  proper acc → proper (fold_left widen bs acc).
Proof.
  revert acc. induction bs as [|b bs IH]; intros acc H; simpl; [done|].
  by apply IH, widen_proper_acc.
Qed.

Lemma fold_widen_proper bs acc :
  Forall proper bs → bs ≠ [] → proper (fold_left widen bs acc).
Proof.
  destruct bs as [|b bs]; [done|]. intros [Hb _]%Forall_cons _. simpl.
  by apply fold_widen_proper_acc, widen_proper.
Qed.

Lemma ring_boxes_proper (rings : list (list point)) bs :
  Forall2 (λ ring b, ring_bbox ring = OK b) rings bs → Forall proper bs.
Proof.
  induction 1 as [|ring b rings bs Hb _ IH]; constructor; [|done].
  by eapply ring_bbox_proper.
Qed.

Lemma box_value_inj b1 b2 : box_value b1 = box_value b2 → b1 = b2.
Proof.
  destruct b1 as [[[? ?] ?] ?], b2 as [[[? ?] ?] ?]. simpl. congruence.
Qed.

Lemma reaches_in_points c pts p :
  as_points c = OK pts → p ∈ pts → reaches c p.
Proof.
  intros (l & -> & Hl)%as_seq_OK Hp.
  destruct (traverse_elem_of_r _ _ _ _ Hl Hp) as (c' & Hc' & Hcp).
  apply reaches_item with c'; [done|].
  pose proof Hcp as (l' & -> & _)%as_seq_OK. by apply reaches_here.
Qed.

Lemma reaches_in_rings c rings ring p :
  as_rings c = OK rings → ring ∈ rings → p ∈ ring → reaches c p.
Proof.
  intros (l & -> & Hl)%as_seq_OK Hr Hp.
  destruct (traverse_elem_of_r _ _ _ _ Hl Hr) as (c' & Hc' & Hcr).
  apply reaches_item with c'; [done|]. by eapply reaches_in_points.
Qed.

Lemma reaches_in_polygons c polygons polygon ring p :
  as_polygons c = OK polygons → polygon ∈ polygons → ring ∈ polygon →
  p ∈ ring → reaches c p.
Proof.
  intros (l & -> & Hl)%as_seq_OK Hpol Hr Hp.
  destruct (traverse_elem_of_r _ _ _ _ Hl Hpol) as (c' & Hc' & Hcr).
  apply reaches_item with c'; [done|]. by eapply reaches_in_rings.
Qed.

Lemma dense_has_tuple ring :
  dense ring → ∃ x y rest, x :: y :: rest ∈ ring.
Proof.
  intros [Hne Hall]. destruct ring as [|p ring]; [done|].
  apply Forall_cons in Hall as [Hp _].
  destruct (two_items p Hp) as (x & y & rest & ->).
  exists x, y, rest. by left.
Qed.

Lemma Forall2_concat_nested {A B} (P : A → B → Prop) ls ks :
  Forall2 (Forall2 P) ls ks → Forall2 P (concat ls) (concat ks).
Proof. induction 1; simpl; [constructor | by apply Forall2_app]. Qed.

(** The box folded from the boxes of built rings is the infinite one
    exactly when there is no ring. *)
Lemma fold_widen_sentinel (rings : list (list point)) bs :
  Forall2 (λ ring b, ring_bbox ring = OK b) rings bs →
  (fold_left widen bs sentinel = sentinel ↔ bs = [])
  ∧ (bs ≠ [] → proper (fold_left widen bs sentinel)).
Proof.
  intros Hbs%ring_boxes_proper. split; [split|].
  - intros Hs. destruct bs as [|b bs]; [done|].
    destruct sentinel_not_proper. rewrite <- Hs.
    by apply fold_widen_proper.
  - by intros ->.
  - by apply fold_widen_proper.
Qed.

(** X6. For a [Polygon], a [MultiLineString] or a [MultiPolygon] that the
    constructor returns, the box is the infinite box
    [[+inf, +inf, -inf, -inf]] exactly when no coordinate tuple is reachable
    in the payload; in every other case its lower bounds do not exceed its
    upper bounds. *)
Theorem sentinel_iff_no_coordinates c payload g :
  new_Geometry c payload = OK g →
  c = Polygon ∨ c = MultiLineString ∨ c = MultiPolygon →
  (bbox g = box_value sentinel
   ↔ ¬ ∃ x y rest, reaches payload (x :: y :: rest))
  ∧ (bbox g ≠ box_value sentinel → ∃ u, bbox g = box_value u ∧ proper u).
Proof.
  unfold new_Geometry. intros H Hc.
  destruct (build_bbox c payload) as [[bb aux]|] eqn:Hb; [|done].
  injection H as <-. simpl.
  assert (∃ (rings : list (list point)) bs,
            Forall2 (λ ring b, ring_bbox ring = OK b) rings bs
            ∧ bb = box_value (fold_left widen bs sentinel)
            ∧ (∀ ring p, ring ∈ rings → p ∈ ring → reaches payload p)
            ∧ (∀ p, reaches payload p → p ≠ [] →
                 ∃ ring, ring ∈ rings ∧ p ∈ ring))
    as (rings & bs & Hbs & -> & Hin & Hout).
  { destruct Hc as [->|[->| ->]]; simpl in Hb;
      apply bind_OK in Hb as (v & Hv & Hb).
    - unfold Polygon_build_bbox in Hb.
      destruct (Polygon_rings v sentinel []) as [[acc bbs]|] eqn:Hl; [|done].
      injection Hb as <- <-.
      apply Polygon_rings_OK in Hl as (bs & Hbs & -> & _).
      exists v, bs. repeat split; try done.
      + intros ring p. by apply reaches_in_rings.
      + intros p. by apply reaches_rings.
    - unfold MultiLineString_build_bbox in Hb.
      destruct (MultiLineString_lines v sentinel) as [acc|] eqn:Hl; [|done].
      injection Hb as <- <-.
      apply MultiLineString_lines_OK in Hl as (bs & Hbs & ->).
      exists v, bs. repeat split; try done.
      + intros ring p. by apply reaches_in_rings.
      + intros p. by apply reaches_rings.
    - unfold MultiPolygon_build_bbox in Hb.
      destruct (MultiPolygon_polygons v sentinel []) as [[acc bbs]|] eqn:Hl;
        [|done].
      injection Hb as <- <-.
      apply MultiPolygon_polygons_OK in Hl as (bss & Hbss & -> & _).
      exists (concat v), (concat bss). repeat split; try done.
      + by apply Forall2_concat_nested.
      + intros ring p (polygon & Hpol & Hr)%elem_of_concat.
        by eapply reaches_in_polygons.
      + intros p Hp Hne.
        destruct (reaches_polygons _ _ _ Hv Hp Hne)
          as (polygon & ring & ? & ? & ?).
        exists ring. split; [|done]. apply elem_of_concat. by exists polygon. }
  destruct (fold_widen_sentinel rings bs Hbs) as [Hiff Hproper].
  assert (bs = [] ↔ ¬ ∃ x y rest, reaches payload (x :: y :: rest)) as Hempty.
  { split.
    - intros -> (x & y & rest & Hp). apply Forall2_nil_inv_r in Hbs as ->.
      destruct (Hout _ Hp) as (ring & Hr%elem_of_nil & _); done.
    - intros Hno. destruct bs as [|b bs]; [done|]. destruct Hno.
      apply Forall2_cons_inv_r in Hbs as (ring & rings' & Hb' & _ & ->).
      destruct (dense_has_tuple ring) as (x & y & rest & Hp).
      { by eapply ring_bbox_OK_dense. }
      exists x, y, rest. apply (Hin ring); [by left | done]. }
  split.
  - rewrite <- Hempty, <- Hiff.
    split; [intros Hs; by apply (box_value_inj _ sentinel) | by intros ->].
  - intros Hne. eexists. split; [done|]. apply Hproper. intros ->.
    by apply Hne.
Qed.

(** ** MultiPoint in any dimension *)

Lemma fold_zip_min (rest : list (list num)) (r : list num) :
  Forall (λ p, length p = length r) rest →
  length (fold_left (zip_with (λ a x, py_min2 a x)) rest r) = length r
  ∧ ∀ j lo, fold_left (zip_with (λ a x, py_min2 a x)) rest r !! j = Some lo →
      ∀ p x, p ∈ r :: rest → p !! j = Some x → lo ⊑ x.
Proof.
  revert r. induction rest as [|q rest IH]; intros r Hall; simpl.
  - split; [done|]. intros j lo Hlo p x Hp%list_elem_of_singleton Hx.
    subst p. pose proof (eq_trans (eq_sym Hlo) Hx) as [= ->]. apply le_refl.
  - apply Forall_cons in Hall as [Hq Hall].
    assert (length (zip_with (λ a x, py_min2 a x) r q) = length r) as Hlen.
    { rewrite length_zip_with. lia. }
    destruct (IH (zip_with (λ a x, py_min2 a x) r q)) as [Hl Hle].
    { eapply Forall_impl; [done|]. intros p Hp. simpl in Hp. by rewrite Hlen. }
    split; [by rewrite Hl|]. intros j lo Hlo p x Hp Hx.
    assert (∀ a b, r !! j = Some a → q !! j = Some b → lo ⊑ py_min2 a b)
      as Hrq.
    { intros a b Ha Hb.
      apply (Hle j lo Hlo (zip_with (λ a x, py_min2 a x) r q)); [by left|].
      rewrite lookup_zip_with, Ha. simpl. by rewrite Hb. }
    apply elem_of_cons in Hp as [->|Hp]; [|apply elem_of_cons in Hp as [->|Hp]].
    + destruct (lookup_lt_is_Some_2 q j) as [b Hb].
      { rewrite Hq. by eapply lookup_lt_Some. }
      eapply le_trans; [by apply Hrq | apply py_min2_le_l].
    + destruct (lookup_lt_is_Some_2 r j) as [a Ha].
      { rewrite <- Hq. by eapply lookup_lt_Some. }
      eapply le_trans; [by apply Hrq | apply py_min2_le_r].
    + apply (Hle j lo Hlo p); [by right | done].
Qed.

Lemma fold_zip_max (rest : list (list num)) (r : list num) :
  Forall (λ p, length p = length r) rest →
  length (fold_left (zip_with (λ a x, py_max2 a x)) rest r) = length r
  ∧ ∀ j hi, fold_left (zip_with (λ a x, py_max2 a x)) rest r !! j = Some hi →
      ∀ p x, p ∈ r :: rest → p !! j = Some x → x ⊑ hi.
Proof.
  revert r. induction rest as [|q rest IH]; intros r Hall; simpl.
  - split; [done|]. intros j lo Hlo p x Hp%list_elem_of_singleton Hx.
    subst p. pose proof (eq_trans (eq_sym Hlo) Hx) as [= ->]. apply le_refl.
  - apply Forall_cons in Hall as [Hq Hall].
    assert (length (zip_with (λ a x, py_max2 a x) r q) = length r) as Hlen.
    { rewrite length_zip_with. lia. }
    destruct (IH (zip_with (λ a x, py_max2 a x) r q)) as [Hl Hle].
    { eapply Forall_impl; [done|]. intros p Hp. simpl in Hp. by rewrite Hlen. }
    split; [by rewrite Hl|]. intros j hi Hhi p x Hp Hx.
    assert (∀ a b, r !! j = Some a → q !! j = Some b → py_max2 a b ⊑ hi)
      as Hrq.
    { intros a b Ha Hb.
      apply (Hle j hi Hhi (zip_with (λ a x, py_max2 a x) r q)); [by left|].
      rewrite lookup_zip_with, Ha. simpl. by rewrite Hb. }
    apply elem_of_cons in Hp as [->|Hp]; [|apply elem_of_cons in Hp as [->|Hp]].
    + destruct (lookup_lt_is_Some_2 q j) as [b Hb].
      { rewrite Hq. by eapply lookup_lt_Some. }
      eapply le_trans; [apply py_max2_ge_l | by apply Hrq].
    + destruct (lookup_lt_is_Some_2 r j) as [a Ha].
      { rewrite <- Hq. by eapply lookup_lt_Some. }
      eapply le_trans; [apply py_max2_ge_r | by apply Hrq].
    + apply (Hle j hi Hhi p); [by right | done].
Qed.

Lemma fold_zip_attained (h : num → num → num) (rest : list (list num))
    (r : list num) j v :
  (∀ a b, h a b = a ∨ h a b = b) →
  fold_left (zip_with h) rest r !! j = Some v →
  ∃ p, p ∈ r :: rest ∧ p !! j = Some v.
Proof.
  intros Hpick. revert r. induction rest as [|q rest IH]; intros r; simpl.
  - intros Hv. exists r. split; [by left | done].
  - intros Hv. destruct (IH _ Hv) as (p & Hp & Hpj).
    apply elem_of_cons in Hp as [->|Hp].
    + rewrite lookup_zip_with in Hpj.
      destruct (r !! j) as [a|] eqn:Ha; [|done]. simpl in Hpj.
      destruct (q !! j) as [b|] eqn:Hb; [|done]. simpl in Hpj.
      injection Hpj as <-. destruct (Hpick a b) as [->| ->].
      * exists r. split; [by left | done].
      * exists q. split; [right; by left | done].
    + exists p. split; [by do 2 right | done].
Qed.

(** X7. The box of a [MultiPoint] lists the minima and then the maxima of
    the columns of the array [m] that numpy builds from the points: [2 N]
    numbers when [m] has [N] columns, with [bbox[j] <= q[j] <= bbox[N + j]]
    for every row [q] of [m] and every [j < N], each bound being an item of
    its column. The rows of [m] are what numpy makes of the points: the
    points themselves when it holds them as they are stored. *)
Theorem MultiPoint_bbox_columns payload g :
  new_Geometry MultiPoint payload = OK g →
  ∃ pts m mins maxs,
    as_points payload = OK pts
    ∧ np_array pts = OK m
    ∧ bbox g = nums_value (mins ++ maxs)
    ∧ length maxs = length mins
    ∧ (∀ q, q ∈ m →
         length q = length mins
         ∧ ∀ j x, q !! j = Some x →
             ∃ lo hi, (mins ++ maxs) !! j = Some lo
                      ∧ (mins ++ maxs) !! (length mins + j) = Some hi
                      ∧ lo ⊑ x ∧ x ⊑ hi)
    ∧ (∀ j lo, mins !! j = Some lo → ∃ q, q ∈ m ∧ q !! j = Some lo)
    ∧ (∀ j hi, maxs !! j = Some hi → ∃ q, q ∈ m ∧ q !! j = Some hi).
Proof.
  unfold new_Geometry. intros H.
  destruct (build_bbox MultiPoint payload) as [[bb aux]|] eqn:Hb; [|done].
  injection H as <-. simpl in *.
  apply bind_OK in Hb as (pts & Hv & Hb). unfold MultiPoint_build_bbox in Hb.
  destruct (np_array pts) as [m|] eqn:Em; [|done].
  pose proof (np_array_rows pts m) as Hlen. specialize (λ a b, Hlen a b Em).
  destruct m as [|r rest]; [done|]. simpl in Hb. injection Hb as <- <-.
  assert (Forall (λ p : point, length p = length r) rest) as Hall.
  { apply Forall_forall. intros p Hp. apply Hlen; [by right | by left]. }
  destruct (fold_zip_min rest r Hall) as [Hlmin Hmin].
  destruct (fold_zip_max rest r Hall) as [Hlmax Hmax].
  eexists pts, (r :: rest), _, _. split; [done|]. split; [done|].
  split; [done|]. split; [by rewrite Hlmin, Hlmax|]. split; [|split].
  - intros p Hp. split.
    { rewrite Hlmin. apply Hlen; [done | by left]. }
    intros j x Hx.
    assert (j < length r) as Hj.
    { rewrite <- (Hlen p r Hp); [by eapply lookup_lt_Some | by left]. }
    destruct (lookup_lt_is_Some_2
                (fold_left (zip_with (λ a x, py_min2 a x)) rest r) j)
      as [lo Hlo]; [by rewrite Hlmin|].
    destruct (lookup_lt_is_Some_2
                (fold_left (zip_with (λ a x, py_max2 a x)) rest r) j)
      as [hi Hhi]; [by rewrite Hlmax|].
    exists lo, hi. split; [|split; [|split]].
    + by rewrite lookup_app_l by (by rewrite Hlmin).
    + by rewrite lookup_app_r, Nat.add_comm, Nat.add_sub by lia.
    + by apply (Hmin j lo Hlo p x).
    + by apply (Hmax j hi Hhi p x).
  - intros j lo. apply fold_zip_attained. apply py_min2_pick.
  - intros j hi. apply fold_zip_attained. apply py_max2_pick.
Qed.

(** ** A MultiPolygon and its member polygons *)

Lemma is_union_box_in u bs U all :
  is_union u bs → is_union U all → bs ⊆ all → box_in u U.
Proof.
  intros ([Hl _] & [Hb _] & [Hr _] & [Ht _])
         ([_ HL] & [_ HB] & [_ HR] & [_ HT]) Hsub.
  assert (∀ (h : box → num) (z d : num),
            z ∈ d :: (h <$> bs) → z ∈ d :: (h <$> all)) as Hmono.
  { intros h z d [->|Hz]%elem_of_cons; [by left|]. right.
    apply list_elem_of_fmap in Hz as (b & -> & Hb').
    apply list_elem_of_fmap. exists b. split; [done | by apply Hsub]. }
  unfold box_in. repeat split.
  - by apply HL, Hmono.
  - by apply HB, Hmono.
  - by apply HR, Hmono.
  - by apply HT, Hmono.
Qed.

(** X8. A [MultiPolygon] and its members: every member of the payload is
    built as a [Polygon] of its own, the box of that polygon lies in the box
    of the [MultiPolygon], and the [bboxes] of the [MultiPolygon] is the list
    of the [bboxes] of these polygons, in the order of the payload. *)
Theorem MultiPolygon_of_Polygons ps g :
  new_Geometry MultiPolygon (Arr ps) = OK g →
  ∃ u bss,
    bbox g = box_value u
    ∧ bboxes g = Some (polygon_boxes_value bss)
    ∧ Forall2 (λ p bs, ∃ gp b, new_Geometry Polygon p = OK gp
                               ∧ bbox gp = box_value b
                               ∧ box_in b u
                               ∧ bboxes gp = Some (ring_boxes_value bs))
              ps bss.
Proof.
  unfold new_Geometry at 1. intros H.
  destruct (build_bbox MultiPolygon (Arr ps)) as [[bb aux]|] eqn:Hb; [|done].
  injection H as <-. simpl in *.
  apply bind_OK in Hb as (polygons & Hv & Hb).
  unfold MultiPolygon_build_bbox in Hb.
  destruct (MultiPolygon_polygons polygons sentinel []) as [[acc bbs]|] eqn:Hl;
    [|done].
  injection Hb as <- <-.
  apply MultiPolygon_polygons_OK in Hl as (bss & Hbss & -> & ->).
  exists (fold_left widen (concat bss) sentinel), bss.
  split; [done|]. split; [done|].
  apply traverse_OK in Hv.
  apply Forall2_same_length_lookup_2.
  { rewrite (Forall2_length _ _ _ Hv). by eapply Forall2_length. }
  intros i p bs Hp Hbs.
  destruct (Forall2_lookup_l _ _ _ _ _ Hv Hp) as (polygon & Hpol & Hview).
  pose proof (Forall2_lookup_lr _ _ _ _ _ _ Hbss Hpol Hbs) as Hrings.
  eexists _, (fold_left widen bs sentinel). split.
  - unfold new_Geometry. simpl. rewrite Hview. simpl.
    unfold Polygon_build_bbox.
    assert (Polygon_rings polygon sentinel []
            = OK (fold_left widen bs sentinel, [] ++ (box_value <$> bs))) as ->.
    { apply Polygon_rings_OK. by exists bs. }
    reflexivity.
  - simpl. split; [done|]. split; [|done].
    eapply is_union_box_in; [apply fold_widen_is_union..|].
    intros b Hb. apply elem_of_concat. exists bs.
    split; [by eapply list_elem_of_lookup_2 | done].
Qed.

End Geometry_more.

(** ** More on feature collections *)

Lemma dispatcher_Some tag c :
  geometryDispatcher !! tag = Some c → tag = type_of c.
Proof.
  unfold geometryDispatcher.
  rewrite !lookup_insert_Some, lookup_empty. intros H.
  repeat (destruct H as [[<- <-]|[_ H]]; [done|]). done.
Qed.

Section FeatureCollection_more.
Context {V : Type} `{!EqDecision V} `{!Numpy num} `{!Numpy V}.
Implicit Types (w : world V) (fc : FeatureCollection V) (f : Feature V).
Implicit Types (v : V) (col : list V) (arr : list (list V)).

(** *** What the constructor reads *)

Lemma read_feature_OK (r : json V) f :
  read_feature r = OK f →
  ∃ g, getitem r "geometry" = OK g
       ∧ getitem g "type" = OK (JStr (type (geometry f)))
       ∧ getitem g "coordinates" = OK (JCoords (coordinates (geometry f)))
       ∧ getitem r "properties" = OK (JProps (properties f)).
Proof.
  intros H. pose proof (read_feature_built r f H) as Hbuilt.
  unfold read_feature in H.
  apply bind_OK in H as (ft & Hft & H). apply bind_OK in H as (fc & Hfc & H).
  apply bind_OK in H as (cls & Hcls & H). apply bind_OK in H as (g & Hg & H).
  apply bind_OK in H as (p & Hp & [= <-]). simpl in *.
  apply bind_OK in Hft as (j & Hj & Hft). rewrite Hj in Hfc. simpl in Hfc.
  apply bind_OK in Hg as (c & Hc & Hg).
  apply bind_OK in Hp as (jp & Hjp & Hp).
  destruct fc; try done. injection Hc as ->.
  destruct jp; try done. injection Hp as ->.
  destruct ft as [tag|[x|l]| | |]; try done. simpl in Hcls.
  destruct (geometryDispatcher !! tag) as [c'|] eqn:Htag; [|done].
  injection Hcls as ->. apply dispatcher_Some in Htag as ->.
  exists j. unfold new_Geometry in Hg.
  destruct (build_bbox cls c) as [[bb aux]|]; [|done].
  injection Hg as <-. by simpl.
Qed.

Lemma new_FeatureCollection_reads (data : json V) idv log fc log' :
  new_FeatureCollection data idv log = (OK fc, log') →
  ∃ records, getitem data "features" = OK (JList records)
             ∧ n_features fc = length records
             ∧ Forall2 (λ r f, read_feature r = OK f) records (features fc).
Proof.
  rewrite new_FeatureCollection_run.
  destruct (getitem data "features") as [j|] eqn:Hj; [|done]. simpl.
  destruct j as [| | |records|]; try done. simpl.
  destruct (traverse read_feature records) as [fs|] eqn:Hfs; [|done].
  destruct (idVariable_set idv _) as [[[]|] w] eqn:Hset; [|done].
  intros [= <- <-]. apply idVariable_set_features in Hset as [Hf Hn].
  exists records. split; [done|]. rewrite Hf, Hn. simpl.
  split; [by apply traverse_length in Hfs|]. by apply traverse_OK.
Qed.

(** X9. A collection that the constructor returns mirrors its input: it
    has as many features as the input has records, ids follow the order of
    the records, and the feature of each id holds the type tag, the
    coordinates and the properties of its record verbatim. *)
Theorem new_FeatureCollection_mirrors_input (data : json V) idv log fc log' :
  new_FeatureCollection data idv log = (OK fc, log') →
  ∃ records,
    getitem data "features" = OK (JList records)
    ∧ n_features fc = length records
    ∧ length (features fc) = length records
    ∧ ∀ i r, records !! i = Some r →
        ∃ f g, features fc !! i = Some f
               ∧ getitem r "geometry" = OK g
               ∧ getitem g "type" = OK (JStr (type (geometry f)))
               ∧ getitem g "coordinates"
                 = OK (JCoords (coordinates (geometry f)))
               ∧ getitem r "properties" = OK (JProps (properties f)).
Proof.
  intros (records & Hdata & Hn & Hfs)%new_FeatureCollection_reads.
  exists records. split; [done|]. split; [done|].
  split; [symmetry; by eapply Forall2_length|]. intros i r Hr.
  destruct (Forall2_lookup_l _ _ _ _ _ Hfs Hr) as (f & Hf & Hread).
  destruct (read_feature_OK r f Hread) as (g & ?). by exists f, g.
Qed.

(** X10. On a collection that the constructor returns,
    [getGeometryCollection] yields the coordinate payloads of the input
    records, verbatim and in the order of the records, and leaves the object
    as it was. *)
Theorem getGeometryCollection_input (data : json V) idv log fc log' :
  new_FeatureCollection data idv log = (OK fc, log') →
  ∃ records cs,
    getitem data "features" = OK (JList records)
    ∧ getGeometryCollection (mkWorld fc log') = (OK cs, mkWorld fc log')
    ∧ Forall2 (λ r c, ∃ g, getitem r "geometry" = OK g
                           ∧ getitem g "coordinates" = OK (JCoords c))
              records cs.
Proof.
  intros (records & Hdata & Hn & Hfs)%new_FeatureCollection_reads.
  exists records. eexists. split; [done|]. split; [reflexivity|]. simpl.
  apply Forall2_fmap_r. eapply Forall2_impl; [done|]. simpl.
  intros r f (g & ? & ? & ? & ?)%read_feature_OK. by exists g.
Qed.

(** *** Projections of the properties *)

Lemma traverse_prop_item (m : gmap string V) props row :
  traverse (prop_item m) props = OK row →
  length row = length props
  ∧ ∀ j p, props !! j = Some p →
      ∃ k v, p = Some k ∧ m !! k = Some v ∧ row !! j = Some v.
Proof.
  intros H. split; [by eapply traverse_length|]. apply traverse_OK in H.
  intros j p Hp.
  destruct (Forall2_lookup_l _ _ _ _ _ H Hp) as (v & Hv & Hitem).
  destruct p as [k|]; [|done]. simpl in Hitem.
  destruct (m !! k) as [v'|] eqn:Hk; [|done]. injection Hitem as ->.
  by exists k, v.
Qed.

(** X11. When [getPropertiesAsLists] returns, it returns one row per id
    [0 .. n_features-1], each with one item per requested key, in the order
    of the keys: the item of row [i] for key [k] is the property [k] of the
    feature [i]. The object is left as it was. *)
Theorem getPropertiesAsLists_rows props w rows w1 :
  getPropertiesAsLists props w = (OK rows, w1) →
  w1 = w
  ∧ length rows = n_features (self w)
  ∧ ∀ i row, rows !! i = Some row →
      ∃ f, features (self w) !! i = Some f
           ∧ length row = length props
           ∧ ∀ j p, props !! j = Some p →
               ∃ k v, p = Some k ∧ properties f !! k = Some v
                      ∧ row !! j = Some v.
Proof.
  unfold getPropertiesAsLists at 1.
  unfold mbind, method_bind, attr, lift. simpl. intros [= Hrows <-].
  split; [done|].
  split; [by rewrite (traverse_length _ _ _ Hrows), length_seq|].
  apply traverse_OK in Hrows. intros i row Hrow.
  destruct (Forall2_lookup_r _ _ _ _ _ Hrows Hrow)
    as (i' & [-> _]%lookup_seq & Hi).
  apply bind_OK in Hi as (f & Hf & Hi). unfold features_item in Hf.
  destruct (features (self w) !! (0 + i)) as [f'|] eqn:Hfi; [|done].
  injection Hf as ->. exists f. split; [done|].
  by apply traverse_prop_item.
Qed.

Lemma prop_item_has_key (f : Feature V) p :
  (∃ v, prop_item (properties f) p = OK v) ↔ has_key f p.
Proof.
  unfold has_key. destruct p as [k|]; simpl.
  - destruct (properties f !! k) as [v|] eqn:Hk.
    + split; [intros _; by exists k, v | intros _; by exists v].
    + split; [by intros [v [=]] | intros (k' & v & [= <-] & Hv); congruence].
  - split; [by intros [v [=]] | by intros (k & v & [=] & _)].
Qed.

Lemma prop_item_lacks (f : Feature V) p :
  ¬ has_key f p →
  prop_item (properties f) p
  = Raise (KeyError (match p with Some k => KStr k | None => KNone end)).
Proof.
  intros Hno. destruct p as [k|]; simpl; [|done].
  destruct (properties f !! k) as [v|] eqn:Hk; [|done].
  destruct Hno. by exists k, v.
Qed.

(** X12. On a collection whose count is its number of features,
    [getPropertiesAsLists] returns exactly when every feature has every
    requested key ([None] is a key no feature has). Otherwise it raises the
    [KeyError] of the first requested key that is missing in the first
    feature, in id order, that lacks a requested key. In both cases the
    object is left as it was. *)
Theorem getPropertiesAsLists_KeyError props w :
  n_features (self w) = length (features (self w)) →
  (getPropertiesAsLists props w).2 = w
  ∧ ((∃ rows, (getPropertiesAsLists props w).1 = OK rows)
     ↔ ∀ f p, f ∈ features (self w) → p ∈ props → has_key f p)
  ∧ ∀ i f j p,
      features (self w) !! i = Some f →
      props !! j = Some p →
      (∀ i' f' p', i' < i → features (self w) !! i' = Some f' →
                   p' ∈ props → has_key f' p') →
      (∀ j' p', j' < j → props !! j' = Some p' → has_key f p') →
      ¬ has_key f p →
      (getPropertiesAsLists props w).1
      = Raise (KeyError (match p with Some k => KStr k | None => KNone end)).
Proof.
  intros Hn. rewrite getPropertiesAsLists_run. unfold lists_of. simpl.
  rewrite Hn. split; [done|]. split; [split|].
  - intros [rows Hrows] f p Hf Hp. apply traverse_OK in Hrows.
    apply list_elem_of_lookup in Hf as [i Hi].
    assert (i < length (features (self w))) as Hlt by (by eapply lookup_lt_Some).
    destruct (Forall2_lookup_l _ _ _ _ _ Hrows (lookup_seq_lt 0 _ i Hlt))
      as (row & _ & Hrow).
    simpl in Hrow. unfold features_item in Hrow. rewrite Hi in Hrow.
    simpl in Hrow. apply traverse_OK in Hrow.
    apply list_elem_of_lookup in Hp as [j Hj].
    destruct (Forall2_lookup_l _ _ _ _ _ Hrow Hj) as (v & _ & Hv).
    apply prop_item_has_key. by exists v.
  - intros Hall. apply traverse_total. apply Forall_forall.
    intros i [_ Hi]%elem_of_seq. simpl in Hi.
    destruct (lookup_lt_is_Some_2 (features (self w)) i Hi) as [f Hf].
    unfold features_item. rewrite Hf. simpl. apply traverse_total.
    apply Forall_forall. intros p Hp. apply prop_item_has_key.
    apply Hall; [|done]. by eapply list_elem_of_lookup_2.
  - intros i f j p Hf Hp Hbefore Hkeys Hno.
    assert (i < length (features (self w))) as Hlt by (by eapply lookup_lt_Some).
    destruct (traverse_total
                (λ i, f ← features_item (features (self w)) i;
                      traverse (prop_item (properties f)) props)
                (take i (seq 0 (length (features (self w))))))
      as [done_rows Hrows].
    { apply Forall_forall. intros i' Hi'.
      apply list_elem_of_lookup in Hi' as [t Ht].
      apply lookup_take_Some in Ht as [Ht Hti].
      apply lookup_seq in Ht as [-> Ht]. simpl.
      destruct (lookup_lt_is_Some_2 (features (self w)) t Ht) as [f' Hf'].
      unfold features_item. rewrite Hf'. simpl. apply traverse_total.
      apply Forall_forall. intros p' Hp'. apply prop_item_has_key.
      by apply (Hbefore t f' p'). }
    destruct (traverse_total (prop_item (properties f)) (take j props))
      as [vs Hvs].
    { apply Forall_forall. intros p' Hp'.
      apply list_elem_of_lookup in Hp' as [t Ht].
      apply lookup_take_Some in Ht as [Ht Htj].
      apply prop_item_has_key. by apply (Hkeys t p'). }
    apply (traverse_first_Raise _ _ i i _ done_rows Hrows).
    { by apply lookup_seq_lt. }
    unfold features_item. rewrite Hf. simpl.
    apply (traverse_first_Raise _ _ j p _ vs Hvs Hp).
    by apply prop_item_lacks.
Qed.

(** *** The setter *)

(** X13. The outcomes of an assignment to [idVariable]. Assigning [None]
    binds [None]. Assigning a key [k] reads the column of [k] first: if that
    raises, the exception is passed on and the object is untouched. If the
    column is read and numpy keeps its values as they are stored, [k] is
    bound and nothing is emitted when the values are pairwise distinct, and
    otherwise one warning is emitted and the object is untouched. *)
Theorem idVariable_set_outcome k w :
  (∀ e, (getPropertiesAsLists [Some k] w).1 = Raise e →
        idVariable_set (Some k) w = (Raise e, w))
  ∧ (∀ rows, (getPropertiesAsLists [Some k] w).1 = OK rows →
       kept rows →
       idVariable_set (Some k) w
       = if decide (NoDup (concat rows))
         then (OK (), mkWorld (with_idVariable (self w) (Some (Some k)))
                              (warned w))
         else (OK (), mkWorld (self w) (warned w ++ [not_unique_msg k])))
  ∧ idVariable_set None w
    = (OK (), mkWorld (with_idVariable (self w) (Some None)) (warned w)).
Proof.
  rewrite idVariable_set_run, getPropertiesAsLists_run. simpl.
  split; [|split; [|done]].
  - intros e He. unfold rows_of. by rewrite He.
  - intros rows Hrows Hkept. rewrite (rows_of_kept _ _ _ Hrows Hkept).
    pose proof (is_unique_stored _ _ _ Hrows) as Hu.
    destruct (is_unique rows); destruct (decide (NoDup (concat rows)))
      as [Hd|Hd]; try done.
    + by destruct Hd; apply Hu.
    + by apply Hu in Hd.
Qed.

Lemma assign_all_invariant ks w :
  consistent (self w) → indexed (self w) →
  consistent (self (assign_all ks w)) ∧ indexed (self (assign_all ks w))
  ∧ features (self (assign_all ks w)) = features (self w)
  ∧ n_features (self (assign_all ks w)) = n_features (self w).
Proof.
  revert w. induction ks as [|k ks IH]; intros w Hc Hi; [done|]. simpl.
  pose proof (surjective_pairing (idVariable_set k w)) as Hset.
  destruct (IH (idVariable_set k w).2) as (? & ? & Hf & Hn).
  - by eapply idVariable_set_consistent.
  - by eapply idVariable_set_indexed.
  - destruct (idVariable_set_features _ _ _ _ Hset) as [Hf' Hn'].
    split; [done|]. split; [done|]. by rewrite Hf, Hn.
Qed.

(** X14. The invariant of the index. After the constructor and any
    sequence of assignments to [idVariable], whether they were adopted,
    refused with a warning or raised, the features and their count are those
    the constructor built, and whenever [idVariable] holds a key the array of
    that key's column can be built and passes the test of [is_unique]; the
    stored values of the key are then pairwise distinct if numpy keeps them
    as they are stored. *)
Theorem idVariable_column_unique (data : json V) idv log fc log' ks :
  new_FeatureCollection data idv log = (OK fc, log') →
  features (self (assign_all ks (mkWorld fc log'))) = features fc
  ∧ n_features (self (assign_all ks (mkWorld fc log'))) = n_features fc
  ∧ ∀ k, __idVariable (self (assign_all ks (mkWorld fc log')))
         = Some (Some k) →
      ∃ arr, getIdVariableOrder (assign_all ks (mkWorld fc log'))
             = (OK arr, assign_all ks (mkWorld fc log'))
             ∧ is_unique arr = true
             ∧ ∀ rows, (getPropertiesAsLists [Some k] (mkWorld fc log')).1
                       = OK rows →
                       kept rows → NoDup (concat rows).
Proof.
  intros Hnew.
  destruct (assign_all_invariant ks (mkWorld fc log'))
    as (Hc & Hi & Hf & Hn).
  - by eapply new_FeatureCollection_consistent.
  - by eapply new_FeatureCollection_indexed.
  - split; [done|]. split; [done|]. intros k Hk.
    destruct (Hi k Hk) as (arr & Harr & Hu).
    exists arr. rewrite getIdVariableOrder_run, Hk. split; [by rewrite Harr|].
    split; [done|]. intros rows Hrows Hkept.
    change (lists_of fc [Some k] = OK rows) in Hrows.
    apply (is_unique_stored _ _ _ Hrows).
    assert (rows_of (self (assign_all ks (mkWorld fc log'))) [Some k]
            = OK rows) as Hrows'.
    { apply rows_of_kept; [|done]. unfold lists_of in *.
      by rewrite Hf, Hn. }
    congruence.
Qed.

(** *** Lookups by value *)

(** X15. While [idVariable] holds [None], [getFeatureIds] on a collection
    with at least one feature raises [KeyError(None)] for every list of
    values, the empty one included: the column is read before any value is
    looked at. On a collection without features it returns [[]] for no
    value and raises [ValueError] otherwise. The object is left as it
    was. *)
Theorem getFeatureIds_idVariable_None w args :
  __idVariable (self w) = Some None →
  (∀ f, 0 < n_features (self w) → features (self w) !! 0 = Some f →
        getFeatureIds args w = (Raise (KeyError KNone), w))
  ∧ (n_features (self w) = 0 →
     getFeatureIds args w
     = (match args with [] => OK [] | _ :: _ => Raise ValueError end, w)).
Proof.
  intros Hk. rewrite getFeatureIds_run, getIdVariableOrder_run, Hk.
  unfold rows_of, lists_of. split.
  - intros f Hn Hf. destruct (n_features (self w)) as [|n]; [lia|]. simpl.
    unfold features_item. by rewrite Hf.
  - intros ->. simpl. rewrite np_array_empty. simpl. by destruct args.
Qed.




Lemma getFeatures_run args w :
  getFeatures args w
  = ((select_ids args w).1
       ≫= λ ids, traverse (features_item (features (self w))) ids,
     (select_ids args w).2).
Proof.
  unfold getFeatures. unfold mbind at 1 2, method_bind, attr, lift.
  destruct (select_ids args w) as [[ids|e] w'] eqn:Hs; simpl; [|done].
  assert (w' = w) as ->; [|done].
  unfold select_ids in Hs. destruct (truthy args).
  - rewrite getFeatureIds_run in Hs. by injection Hs.
  - by injection Hs.
Qed.

(** X17. On a collection that satisfies the invariants, whose
    [idVariable] is the key [k] and whose values of [k] numpy keeps as they
    are stored, when [getFeatures] returns for a non-empty list of values
    it yields one feature per value, in the order of the values: a feature
    of the collection whose property [k] is that value, and the only such
    feature. The object is left as it was. *)
Theorem getFeatures_by_value w k rows args fs w1 :
  consistent (self w) → indexed (self w) →
  __idVariable (self w) = Some (Some k) →
  (getPropertiesAsLists [Some k] w).1 = OK rows →
  kept rows →
  args ≠ [] →
  getFeatures (Some args) w = (OK fs, w1) →
  w1 = w
  ∧ Forall2 (λ v f, f ∈ features (self w)
                    ∧ properties f !! k = Some v
                    ∧ ∀ j f', features (self w) !! j = Some f' →
                              properties f' !! k = Some v → f' = f)
            args fs.
Proof.
  intros [Hn _] Hind Hk Hlists Hkept Hne. rewrite getFeatures_run.
  rewrite getPropertiesAsLists_run in Hlists. simpl in Hlists.
  unfold select_ids.
  assert (truthy (Some args) = true) as -> by (by destruct args). simpl.
  rewrite getFeatureIds_run, getIdVariableOrder_run, Hk. simpl.
  destruct (Hind k Hk) as (arr & Hrows & Hu).
  rewrite (rows_of_kept _ _ _ Hlists Hkept) in Hrows. injection Hrows as <-.
  rewrite (rows_of_kept _ _ _ Hlists Hkept). simpl.
  apply (is_unique_stored _ _ _ Hlists) in Hu as Hnd.
  apply lists_of_single in Hlists as (col & -> & Hcol).
  rewrite concat_singletons in *. intros [= Hfs <-]. split; [done|].
  apply bind_OK in Hfs as (ids & Hids & Hfs).
  apply traverse_OK in Hids. apply traverse_OK in Hfs.
  apply Forall2_same_length_lookup_2.
  { rewrite (Forall2_length _ _ _ Hids). by eapply Forall2_length. }
  intros t v f Hv Hf.
  destruct (Forall2_lookup_l _ _ _ _ _ Hids Hv) as (i & Hi & Hindex).
  pose proof (Forall2_lookup_lr _ _ _ _ _ _ Hfs Hi Hf) as Hitem.
  apply index_OK in Hindex as [Hci _].
  destruct (Forall2_lookup_r _ _ _ _ _ Hcol Hci)
    as (i' & [-> _]%lookup_seq & f0 & Hf0 & Hp0).
  simpl in *. unfold features_item in Hitem. rewrite Hf0 in Hitem.
  injection Hitem as <-. split; [by eapply list_elem_of_lookup_2|].
  split; [done|]. intros j f' Hj Hp'.
  assert (j < n_features (self w)) as Hlt.
  { rewrite Hn. by eapply lookup_lt_Some. }
  destruct (Forall2_lookup_l _ _ _ _ _ Hcol (lookup_seq_lt 0 _ j Hlt))
    as (v' & Hcj & f'' & Hj' & Hp'').
  simpl in Hj'. rewrite Hj in Hj'. injection Hj' as <-.
  rewrite Hp' in Hp''. injection Hp'' as <-.
  assert (i = j) as -> by (by eapply NoDup_lookup).
  congruence.
Qed.

(** X23. On a collection whose [idVariable] is the key [k] and whose
    values of [k] numpy keeps as they are stored, for every value [v] among
    them [getFeatureIds([v])] returns [[i]], where [i] is the position of
    the first occurrence of [v] in the column in id order, and the feature
    of id [i] has [v] as its property [k]. The object is left as it was. *)
Theorem getFeatureIds_first_occurrence w k rows v :
  __idVariable (self w) = Some (Some k) →
  (getPropertiesAsLists [Some k] w).1 = OK rows →
  kept rows →
  v ∈ concat rows →
  ∃ i f, getFeatureIds [v] w = (OK [i], w)
         ∧ concat rows !! i = Some v
         ∧ (∀ j, j < i → concat rows !! j ≠ Some v)
         ∧ features (self w) !! i = Some f
         ∧ properties f !! k = Some v.
Proof.
  intros Hk Hlists Hkept Hv.
  rewrite getPropertiesAsLists_run in Hlists. simpl in Hlists.
  rewrite getFeatureIds_run, getIdVariableOrder_run, Hk. simpl.
  rewrite (rows_of_kept _ _ _ Hlists Hkept). simpl.
  apply lists_of_single in Hlists as (col & -> & Hcol).
  rewrite concat_singletons in *.
  destruct (index_elem_of col v Hv) as [i Hi]. rewrite Hi. simpl.
  apply index_OK in Hi as [Hi Hfirst].
  destruct (Forall2_lookup_r _ _ _ _ _ Hcol Hi)
    as (i' & [-> _]%lookup_seq & f & Hf & Hp).
  by exists i, f.
Qed.

Lemma traverse_rmap {A B C} (h : A → result B) (g : B → C) l :
  traverse (λ x, y ← h x; OK (g y)) l = rmap (fmap g) (traverse h l).
Proof.
  unfold rmap. induction l as [|x l IH]; simpl; [done|].
  destruct (h x) as [y|]; simpl; [|done]. rewrite IH.
  by destruct (traverse h l).
Qed.

(** X18. For every argument and every collection, [getGeometries] has the
    outcome of [getFeatures] followed by the projection on [geometry]: the
    geometries of the features that [getFeatures] yields, or the same
    exception. *)
Theorem getGeometries_as_getFeatures args w :
  getGeometries args w
  = (rmap (fmap geometry) (getFeatures args w).1, (getFeatures args w).2).
Proof.
  rewrite getFeatures_run. simpl. unfold getGeometries.
  unfold mbind at 1 2, method_bind, attr, lift.
  destruct (select_ids args w) as [[ids|e] w'] eqn:Hs; simpl; [|done].
  assert (w' = w) as ->.
  { unfold select_ids in Hs. destruct (truthy args).
    - rewrite getFeatureIds_run in Hs. by injection Hs.
    - by injection Hs. }
  by rewrite traverse_rmap.
Qed.

(** *** Saving and loading with an index *)

Lemma new_FeatureCollection_of_saved (fs : list (Feature V)) idv log :
  Forall (λ f, built (geometry f)) fs →
  new_FeatureCollection
    (JDict [("type", JStr "FeatureCollection");
            ("features", JList (save_feature <$> fs))]) idv log
  = match idVariable_set idv
            (mkWorld (mkFeatureCollection (length fs) fs None) log)
    with
    | (OK _, w) => (OK (self w), warned w)
    | (Raise e, w) => (Raise e, warned w)
    end.
Proof.
  intros Hb. rewrite new_FeatureCollection_run.
  assert (getitem (V:=V)
            (JDict [("type", JStr "FeatureCollection");
                    ("features", JList (save_feature <$> fs))]) "features"
          ≫= as_list = OK (save_feature <$> fs)) as -> by reflexivity.
  cbv beta iota. by rewrite (traverse_read_feature_save _ Hb).
Qed.

(** X19. The saved structure does not hold [idVariable]: loading it with
    the default argument gives the collection back with [idVariable] bound
    to [None], and loading it with the key that [idVariable] held gives the
    very same object back, without any warning. *)
Theorem save_load_idVariable w k :
  consistent (self w) → indexed (self w) →
  __idVariable (self w) = Some (Some k) →
  ∃ d, saveAsGeoJson w = (OK d, w)
       ∧ new_FeatureCollection d None (warned w)
         = (OK (with_idVariable (self w) (Some None)), warned w)
       ∧ new_FeatureCollection d (Some k) (warned w) = (OK (self w), warned w).
Proof.
  intros [Hn Hb] Hind Hk. eexists. split; [reflexivity|].
  rewrite !(new_FeatureCollection_of_saved _ _ _ Hb), idVariable_set_run.
  simpl. unfold with_idVariable. rewrite <- Hn. split; [done|].
  destruct (Hind k Hk) as (arr & Hrows & Hu).
  change (rows_of (mkFeatureCollection (n_features (self w))
                     (features (self w)) None) [Some k])
    with (rows_of (self w) [Some k]).
  rewrite Hrows, Hu. simpl.
  rewrite <- Hk. by destruct w as [[n fs idv] log].
Qed.

(** *** is_unique *)

Lemma rows_of_one {A} (rows : list (list A)) :
  Forall (λ r, length r = 1) rows → rows = (λ a : A, [a]) <$> concat rows.
Proof.
  induction 1 as [|r rows Hr _ IH]; [done|].
  destruct r as [|a [|? ?]]; try done.
  change (concat ([a] :: rows)) with (a :: concat rows).
  rewrite fmap_cons. by f_equal.
Qed.

Lemma length_concat_rows {A} (rows : list (list A)) c :
  Forall (λ r, length r = c) rows → length (concat rows) = c * length rows.
Proof.
  induction 1 as [|r rows Hr _ IH]; simpl; [lia|].
  rewrite length_app, IH, Hr. lia.
Qed.

(** X20. [is_unique] compares the number of distinct entries of the whole
    array with its number of rows. On an array of one column it is true
    exactly when the values are pairwise distinct; on a non-empty array of
    two columns or more whose entries are all distinct it is false. *)
Theorem is_unique_rows arr c :
  Forall (λ r, length r = c) arr →
  (c = 1 → (is_unique arr = true ↔ NoDup (concat arr)))
  ∧ (2 ≤ c → arr ≠ [] → NoDup (concat arr) → is_unique arr = false).
Proof.
  intros Hall. split.
  - intros ->. rewrite (rows_of_one arr Hall) at 1. apply is_unique_column.
  - intros Hc Hne Hnd. unfold is_unique, np_unique.
    apply remove_dups_length in Hnd. rewrite Hnd.
    rewrite (length_concat_rows arr c Hall).
    destruct arr; [done|]. simpl. destruct (decide _); [nia | done].
Qed.

(** *** The constructor and its [idVariable] argument *)

(** X22. The [idVariable] argument of the constructor, on an input that
    is loaded without failure when the argument is omitted. Omitting it
    binds [None] and emits nothing. Passing a key [k] gives the same
    features and: raises, returning no collection, when the column of [k]
    cannot be read; when the column is read and numpy keeps its values as
    they are stored, binds [k] if the values are pairwise distinct, and
    otherwise emits the warning and leaves [idVariable] unbound, so that
    reading it raises [AttributeError]. *)
Theorem new_FeatureCollection_idVariable (data : json V) log fc0 log0 k :
  new_FeatureCollection data None log = (OK fc0, log0) →
  log0 = log
  ∧ __idVariable fc0 = Some None
  ∧ (∀ e, (getPropertiesAsLists [Some k] (mkWorld fc0 log)).1 = Raise e →
          new_FeatureCollection data (Some k) log = (Raise e, log))
  ∧ (∀ rows, (getPropertiesAsLists [Some k] (mkWorld fc0 log)).1 = OK rows →
       kept rows →
       new_FeatureCollection data (Some k) log
       = if decide (NoDup (concat rows))
         then (OK (with_idVariable fc0 (Some (Some k))), log)
         else (OK (with_idVariable fc0 None), log ++ [not_unique_msg k]))
  ∧ ∀ log1, idVariable_get (mkWorld (with_idVariable fc0 None) log1)
            = (Raise AttributeError, mkWorld (with_idVariable fc0 None) log1).
Proof.
  rewrite !new_FeatureCollection_run.
  destruct (getitem data "features" ≫= as_list) as [records|]; [|done].
  destruct (traverse read_feature records) as [fs|]; [|done].
  rewrite idVariable_set_run. simpl. intros [= <- <-].
  split; [done|]. split; [done|].
  change (rows_of (mkFeatureCollection (length fs) fs None) [Some k])
    with (rows_of (mkFeatureCollection (length fs) fs (Some None)) [Some k]).
  split; [|split; [|done]].
  - intros e He.
    change (lists_of (mkFeatureCollection (length fs) fs (Some None))
              [Some k] = Raise e) in He.
    unfold rows_of. by rewrite He.
  - intros rows Hrows Hkept.
    change (lists_of (mkFeatureCollection (length fs) fs (Some None))
              [Some k] = OK rows) in Hrows.
    rewrite (rows_of_kept _ _ _ Hrows Hkept).
    pose proof (is_unique_stored _ _ _ Hrows) as Hu.
    destruct (is_unique rows); destruct (decide (NoDup (concat rows)))
      as [Hd|Hd]; try done.
    + by destruct Hd; apply Hu.
    + by apply Hu in Hd.
Qed.

End FeatureCollection_more.

(** ** The scenarios

    The properties above at the examples: numpy is the one of the examples,
    whose arrays hold the integers as given. *)

Section Scenarios.
#[local] Existing Instance numpy_of_coordinates.
#[local] Existing Instance numpy_of_integers.
#[local] Existing Instance numpy_of_lists.

Lemma bbox_encloses_coordinates_witness :
  ∃ b, bbox (mkGeometry MultiPoint "MultiPoint" (Arr [xy 1 5; xy 3 2])
               (Arr [Num (int 1); Num (int 2); Num (int 3); Num (int 5)]) None)
       = box_value b
       ∧ inside b (int 3) (int 2).
Proof.
  refine (proj2 (bbox_encloses_coordinates MultiPoint (Arr [xy 1 5; xy 3 2])
                   _ (int 3) (int 2) [] _ _ _ _)).
  - reflexivity.
  - discriminate.
  - apply reaches_item with (xy 3 2).
    + apply elem_of_cons. right. apply elem_of_cons. by left.
    + by apply reaches_here.
  - intros _. split; [reflexivity|]. eexists. split; reflexivity.
Defined.

(** A [MultiPoint] of one point with three coordinates: its box lists the
    three minima and then the three maxima, so that [bbox[2]] is the least
    third coordinate and lies below the first coordinate of the point. *)
Lemma MultiPoint_three_coordinates :
  ∃ g, new_Geometry MultiPoint
         (Arr [Arr [Num (int 5); Num (int 5); Num (int 0)]]) = OK g
       ∧ reaches (coordinates g) [int 5; int 5; int 0]
       ∧ bbox g = Arr [Num (int 5); Num (int 5); Num (int 0);
                       Num (int 5); Num (int 5); Num (int 0)]
       ∧ ¬ int 5 ⊑ int 0
       ∧ ¬ ∃ b, bbox g = box_value b ∧ inside b (int 5) (int 5).
Proof.
  eexists. split; [vm_compute; reflexivity|]. simpl. split; [|split; [|split]].
  - apply reaches_item with (Arr [Num (int 5); Num (int 5); Num (int 0)]).
    + by left.
    + by apply reaches_here.
  - reflexivity.
  - by vm_compute.
  - by intros ([[[x0 y0] x1] y1] & [=] & _).
Qed.

(** The empty [LineString] is not built: [min] of no item raises. *)
Lemma empty_LineString_raises :
  new_Geometry LineString (Arr []) = Raise ValueError
  ∧ ¬ ∃ g, new_Geometry LineString (Arr []) = OK g
           ∧ bbox g = box_value sentinel.
Proof. split; [done|]. by intros (g & [=] & _). Qed.

Lemma MultiPolygon_bbox_is_union_witness :
  ∃ g, new_Geometry MultiPolygon
         (Arr [Arr [Arr [xy 1 2; xy 3 0]; Arr [xy 7 7]]; Arr []]) = OK g
       ∧ ∃ polygons bss u,
           as_polygons (Arr [Arr [Arr [xy 1 2; xy 3 0]; Arr [xy 7 7]]; Arr []])
           = OK polygons
           ∧ Forall2 (Forall2 (λ ring b, ring_bbox ring = OK b)) polygons bss
           ∧ bbox g = box_value u
           ∧ is_union u (concat bss)
           ∧ bboxes g = Some (polygon_boxes_value bss).
Proof.
  eexists. split; [vm_compute; reflexivity|].
  apply (MultiPolygon_bbox_is_union
           (Arr [Arr [Arr [xy 1 2; xy 3 0]; Arr [xy 7 7]]; Arr []])).
  vm_compute. reflexivity.
Defined.

Lemma getFeatureIds_first_occurrence_witness :
  ∃ i f, getFeatureIds [20%Z] three_points_by_id = (OK [i], three_points_by_id)
         ∧ concat [[10%Z]; [20%Z]; [30%Z]] !! i = Some 20%Z
         ∧ (∀ j, j < i → concat [[10%Z]; [20%Z]; [30%Z]] !! j ≠ Some 20%Z)
         ∧ features (self three_points_by_id) !! i = Some f
         ∧ properties f !! "id" = Some 20%Z.
Proof.
  apply (getFeatureIds_first_occurrence three_points_by_id "id"
           [[10%Z]; [20%Z]; [30%Z]] 20%Z).
  - vm_compute. reflexivity.
  - vm_compute. reflexivity.
  - reflexivity.
  - simpl. apply elem_of_cons. right. apply elem_of_cons. by left.
Defined.


Lemma idVariable_set_outcome_witness :
  idVariable_set (Some "id") two_points_no_id
  = (OK (), mkWorld (self two_points_no_id)
                    (warned two_points_no_id ++ [not_unique_msg "id"]))
  ∧ idVariable_set (Some "id") (mkWorld (constructed three_points None) [])
    = (OK (), three_points_by_id)
  ∧ idVariable_set (Some "name") two_points_no_id
    = (Raise (KeyError (KStr "name")), two_points_no_id).
Proof.
  split; [|split].
  - destruct (idVariable_set_outcome "id" two_points_no_id) as (_ & H & _).
    rewrite (H [[5%Z]; [5%Z]]); [|vm_compute; reflexivity|reflexivity].
    destruct (decide _) as [Hd|_]; [|done].
    apply NoDup_cons in Hd as [Hd _]. destruct Hd. by left.
  - destruct (idVariable_set_outcome "id"
                (mkWorld (constructed three_points None) []))
      as (_ & H & _).
    rewrite (H [[10%Z]; [20%Z]; [30%Z]]);
      [|vm_compute; reflexivity|reflexivity].
    destruct (decide _) as [_|Hd]; [by vm_compute|].
    destruct Hd. apply (bool_decide_unpack _). by vm_compute.
  - destruct (idVariable_set_outcome "name" two_points_no_id) as (H & _ & _).
    apply H. vm_compute. reflexivity.
Defined.

Lemma getFeatures_empty_args_witness :
  getFeatures (Some []) three_points_by_id
  = (OK (features (self three_points_by_id)), three_points_by_id)
  ∧ getFeatures None three_points_by_id
    = (OK (features (self three_points_by_id)), three_points_by_id)
  ∧ getGeometries (Some []) three_points_by_id
    = (OK (geometry <$> features (self three_points_by_id)),
       three_points_by_id)
  ∧ getGeometries None three_points_by_id
    = (OK (geometry <$> features (self three_points_by_id)),
       three_points_by_id).
Proof.
  apply (getFeatures_empty_args three_points_by_id).
  vm_compute. reflexivity.
Defined.

Lemma save_load_round_trip_witness :
  ∃ d fc',
    saveAsGeoJson three_points_by_id = (OK d, three_points_by_id)
    ∧ new_FeatureCollection d None (warned three_points_by_id)
      = (OK fc', warned three_points_by_id)
    ∧ n_features fc' = n_features (self three_points_by_id)
    ∧ (∀ i f, features (self three_points_by_id) !! i = Some f →
         ∃ f', features fc' !! i = Some f'
               ∧ type (geometry f') = type (geometry f)
               ∧ coordinates (geometry f') = coordinates (geometry f)
               ∧ properties f' = properties f)
    ∧ no_bbox_entry d.
Proof.
  apply (save_load_round_trip three_points_by_id).
  split; [vm_compute; reflexivity|].
  repeat constructor.
Defined.

Lemma unknown_type_aborts_witness :
  (∃ e, new_FeatureCollection circle_after_point None [] = (Raise e, []))
  ∧ new_FeatureCollection circle_after_point None []
    = (Raise (KeyError (KStr "Circle")), []).
Proof.
  assert ("Circle" ∉ geometry_types) as Htag.
  { unfold geometry_types. rewrite !not_elem_of_cons.
    repeat split; try discriminate. apply not_elem_of_nil. }
  destruct (unknown_type_aborts circle_after_point
              [feature_record "Point" (xy 0 0) 1;
               feature_record "Circle" (xy 0 0) 2]
              1 (feature_record "Circle" (xy 0 0) 2)
              (JDict [("type", JStr "Circle");
                      ("coordinates", JCoords (xy 0 0))])
              "Circle" None [] eq_refl eq_refl eq_refl eq_refl Htag)
    as [Hfails Hkey].
  split; [exact Hfails|]. apply Hkey.
  - simpl. constructor; [|constructor].
    exists (JDict [("type", JStr "Point"); ("coordinates", JCoords (xy 0 0))]),
           "Point", Point, (xy 0 0), {[ "id" := 1%Z ]}.
    repeat split; reflexivity.
  - eexists. vm_compute. reflexivity.
Defined.

(** The unknown tag is not reached when an earlier record fails: the empty
    line string raises [ValueError] first. *)
Lemma unknown_type_after_failing_record :
  (∃ records r g,
     getitem circle_after_empty_line "features" = OK (JList records)
     ∧ records !! 1 = Some r
     ∧ getitem r "geometry" = OK g
     ∧ getitem g "type" = OK (JStr "Circle")
     ∧ "Circle" ∉ geometry_types)
  ∧ new_FeatureCollection circle_after_empty_line None []
    = (Raise ValueError, [])
  ∧ new_FeatureCollection circle_after_empty_line None []
    ≠ (Raise (KeyError (KStr "Circle")), []).
Proof.
  split; [|split; [by vm_compute | by vm_compute]].
  do 3 eexists. repeat split; try (vm_compute; reflexivity).
  unfold geometry_types. rewrite !not_elem_of_cons.
  repeat split; try discriminate. apply not_elem_of_nil.
Qed.

Lemma ring_bbox_least_witness :
  encloses (int 1, int 0, int 3, int 2) [[int 1; int 2]; [int 3; int 0]]
  ∧ proper (int 1, int 0, int 3, int 2)
  ∧ ((∃ p, p ∈ [[int 1; int 2]; [int 3; int 0]]
           ∧ p !! 0 = Some (left_of (int 1, int 0, int 3, int 2)))
     ∧ (∃ p, p ∈ [[int 1; int 2]; [int 3; int 0]]
             ∧ p !! 1 = Some (bottom_of (int 1, int 0, int 3, int 2)))
     ∧ (∃ p, p ∈ [[int 1; int 2]; [int 3; int 0]]
             ∧ p !! 0 = Some (right_of (int 1, int 0, int 3, int 2)))
     ∧ (∃ p, p ∈ [[int 1; int 2]; [int 3; int 0]]
             ∧ p !! 1 = Some (top_of (int 1, int 0, int 3, int 2))))
  ∧ ∀ b', encloses b' [[int 1; int 2]; [int 3; int 0]]
          → box_in (int 1, int 0, int 3, int 2) b'.
Proof.
  apply (ring_bbox_least [[int 1; int 2]; [int 3; int 0]]
           (int 1, int 0, int 3, int 2)).
  vm_compute. reflexivity.
Defined.

Lemma Polygon_bbox_is_union_witness :
  ∃ g, new_Geometry Polygon (Arr [Arr [xy 0 0; xy 9 9]; Arr [xy 2 3]]) = OK g
       ∧ ∃ rings bs u,
           as_rings (Arr [Arr [xy 0 0; xy 9 9]; Arr [xy 2 3]]) = OK rings
           ∧ Forall2 (λ ring b, ring_bbox ring = OK b) rings bs
           ∧ bbox g = box_value u
           ∧ is_union u bs
           ∧ bboxes g = Some (ring_boxes_value bs).
Proof.
  eexists. split; [vm_compute; reflexivity|].
  apply (Polygon_bbox_is_union (Arr [Arr [xy 0 0; xy 9 9]; Arr [xy 2 3]])).
  vm_compute. reflexivity.
Defined.

Lemma MultiLineString_bbox_is_union_witness :
  ∃ g, new_Geometry MultiLineString (Arr [Arr [xy 0 0; xy 9 9]; Arr [xy 2 3]])
       = OK g
       ∧ ∃ lines bs u,
           as_rings (Arr [Arr [xy 0 0; xy 9 9]; Arr [xy 2 3]]) = OK lines
           ∧ Forall2 (λ line b, ring_bbox line = OK b) lines bs
           ∧ bbox g = box_value u
           ∧ is_union u bs
           ∧ bboxes g = None.
Proof.
  eexists. split; [vm_compute; reflexivity|].
  apply (MultiLineString_bbox_is_union
           (Arr [Arr [xy 0 0; xy 9 9]; Arr [xy 2 3]])).
  vm_compute. reflexivity.
Defined.

Lemma sentinel_iff_no_coordinates_witness :
  ∃ g, new_Geometry MultiPolygon (Arr [Arr []; Arr []]) = OK g
       ∧ (bbox g = box_value sentinel
          ↔ ¬ ∃ x y rest, reaches (Arr [Arr []; Arr []]) (x :: y :: rest))
       ∧ (bbox g ≠ box_value sentinel → ∃ u, bbox g = box_value u ∧ proper u).
Proof.
  eexists. split; [vm_compute; reflexivity|].
  apply (sentinel_iff_no_coordinates MultiPolygon (Arr [Arr []; Arr []])).
  - vm_compute. reflexivity.
  - right. right. reflexivity.
Defined.

Lemma MultiPoint_bbox_columns_witness :
  ∃ g, new_Geometry MultiPoint
         (Arr [Arr [Num (int 5); Num (int 5); Num (int 0)];
               Arr [Num (int 1); Num (int 7); Num (int 2)]]) = OK g
       ∧ bbox g = nums_value [int 1; int 5; int 0; int 5; int 7; int 2]
       ∧ ∃ pts m mins maxs,
           as_points (Arr [Arr [Num (int 5); Num (int 5); Num (int 0)];
                           Arr [Num (int 1); Num (int 7); Num (int 2)]])
           = OK pts
           ∧ np_array pts = OK m
           ∧ bbox g = nums_value (mins ++ maxs)
           ∧ length maxs = length mins
           ∧ (∀ q, q ∈ m →
                length q = length mins
                ∧ ∀ j x, q !! j = Some x →
                    ∃ lo hi, (mins ++ maxs) !! j = Some lo
                             ∧ (mins ++ maxs) !! (length mins + j) = Some hi
                             ∧ lo ⊑ x ∧ x ⊑ hi)
           ∧ (∀ j lo, mins !! j = Some lo → ∃ q, q ∈ m ∧ q !! j = Some lo)
           ∧ (∀ j hi, maxs !! j = Some hi → ∃ q, q ∈ m ∧ q !! j = Some hi).
Proof.
  eexists. split; [vm_compute; reflexivity|]. split; [reflexivity|].
  apply (MultiPoint_bbox_columns
           (Arr [Arr [Num (int 5); Num (int 5); Num (int 0)];
                 Arr [Num (int 1); Num (int 7); Num (int 2)]])).
  vm_compute. reflexivity.
Defined.

Lemma MultiPolygon_of_Polygons_witness :
  ∃ g, new_Geometry MultiPolygon
         (Arr [Arr [Arr [xy 1 2; xy 3 0]; Arr [xy 7 7]]; Arr []]) = OK g
       ∧ ∃ u bss,
           bbox g = box_value u
           ∧ bboxes g = Some (polygon_boxes_value bss)
           ∧ Forall2 (λ p bs, ∃ gp b, new_Geometry Polygon p = OK gp
                                      ∧ bbox gp = box_value b
                                      ∧ box_in b u
                                      ∧ bboxes gp = Some (ring_boxes_value bs))
                     [Arr [Arr [xy 1 2; xy 3 0]; Arr [xy 7 7]]; Arr []] bss.
Proof.
  eexists. split; [vm_compute; reflexivity|].
  apply (MultiPolygon_of_Polygons
           [Arr [Arr [xy 1 2; xy 3 0]; Arr [xy 7 7]]; Arr []]).
  vm_compute. reflexivity.
Defined.

Lemma new_FeatureCollection_mirrors_input_witness :
  ∃ records,
    getitem three_points "features" = OK (JList records)
    ∧ n_features (self three_points_by_id) = length records
    ∧ length (features (self three_points_by_id)) = length records
    ∧ ∀ i r, records !! i = Some r →
        ∃ f g, features (self three_points_by_id) !! i = Some f
               ∧ getitem r "geometry" = OK g
               ∧ getitem g "type" = OK (JStr (type (geometry f)))
               ∧ getitem g "coordinates"
                 = OK (JCoords (coordinates (geometry f)))
               ∧ getitem r "properties" = OK (JProps (properties f)).
Proof.
  apply (new_FeatureCollection_mirrors_input three_points (Some "id") []
           (self three_points_by_id) []).
  vm_compute. reflexivity.
Defined.

Lemma getGeometryCollection_input_witness :
  ∃ records cs,
    getitem three_points "features" = OK (JList records)
    ∧ getGeometryCollection (mkWorld (self three_points_by_id) [])
      = (OK cs, mkWorld (self three_points_by_id) [])
    ∧ Forall2 (λ r c, ∃ g, getitem r "geometry" = OK g
                           ∧ getitem g "coordinates" = OK (JCoords c))
              records cs.
Proof.
  apply (getGeometryCollection_input three_points (Some "id") []
           (self three_points_by_id) []).
  vm_compute. reflexivity.
Defined.

Lemma getPropertiesAsLists_rows_witness :
  three_points_by_id = three_points_by_id
  ∧ length [[10%Z; 10%Z]; [20%Z; 20%Z]; [30%Z; 30%Z]]
    = n_features (self three_points_by_id)
  ∧ ∀ i row, [[10%Z; 10%Z]; [20%Z; 20%Z]; [30%Z; 30%Z]] !! i = Some row →
      ∃ f, features (self three_points_by_id) !! i = Some f
           ∧ length row = length [Some "id"; Some "id"]
           ∧ ∀ j p, [Some "id"; Some "id"] !! j = Some p →
               ∃ k v, p = Some k ∧ properties f !! k = Some v
                      ∧ row !! j = Some v.
Proof.
  apply (getPropertiesAsLists_rows [Some "id"; Some "id"] three_points_by_id
           [[10%Z; 10%Z]; [20%Z; 20%Z]; [30%Z; 30%Z]] three_points_by_id).
  vm_compute. reflexivity.
Defined.

Lemma getPropertiesAsLists_KeyError_witness :
  (getPropertiesAsLists [Some "id"; Some "name"] three_points_by_id).2
  = three_points_by_id
  ∧ (getPropertiesAsLists [Some "id"; Some "name"] three_points_by_id).1
    = Raise (KeyError (KStr "name"))
  ∧ ∃ rows, (getPropertiesAsLists [Some "id"; Some "id"]
               three_points_by_id).1 = OK rows.
Proof.
  assert (∀ f, f ∈ features (self three_points_by_id) →
               has_key f (Some "id")) as Hid.
  { intros f Hf. exists "id". vm_compute in Hf.
    repeat (apply elem_of_cons in Hf as [->|Hf]; [by eexists|]).
    by apply elem_of_nil in Hf. }
  split; [|split].
  - apply (getPropertiesAsLists_KeyError [Some "id"; Some "name"]
             three_points_by_id). vm_compute. reflexivity.
  - destruct (getPropertiesAsLists_KeyError [Some "id"; Some "name"]
                three_points_by_id) as (_ & _ & H); [vm_compute; reflexivity|].
    eapply (H 0 _ 1 (Some "name")).
    + vm_compute. reflexivity.
    + reflexivity.
    + intros i' f' p' Hi'. lia.
    + intros [|j'] p' Hlt Hp'; [|lia]. simpl in Hp'. injection Hp' as <-.
      apply Hid. vm_compute. by left.
    + intros (k & v & [= <-] & Hv). vm_compute in Hv. discriminate.
  - apply (getPropertiesAsLists_KeyError [Some "id"; Some "id"]
             three_points_by_id); [vm_compute; reflexivity|].
    intros f p Hf Hp.
    repeat (apply elem_of_cons in Hp as [->|Hp]; [by apply Hid|]).
    by apply elem_of_nil in Hp.
Defined.

Lemma getFeatureIds_idVariable_None_witness :
  (∀ f, 0 < n_features (self two_points_no_id) →
        features (self two_points_no_id) !! 0 = Some f →
        getFeatureIds [5%Z] two_points_no_id
        = (Raise (KeyError KNone), two_points_no_id))
  ∧ (n_features (self two_points_no_id) = 0 →
     getFeatureIds [5%Z] two_points_no_id
     = (match [5%Z] with [] => OK [] | _ :: _ => Raise ValueError end,
        two_points_no_id)).
Proof.
  apply (getFeatureIds_idVariable_None two_points_no_id [5%Z]).
  vm_compute. reflexivity.
Defined.


Lemma idVariable_column_unique_witness :
  __idVariable (self (assign_all [Some "name"; None; Some "id"]
                        (mkWorld (constructed three_points None) [])))
  = Some (Some "id")
  ∧ features (self (assign_all [Some "name"; None; Some "id"]
                      (mkWorld (constructed three_points None) [])))
    = features (constructed three_points None)
  ∧ n_features (self (assign_all [Some "name"; None; Some "id"]
                        (mkWorld (constructed three_points None) [])))
    = n_features (constructed three_points None)
  ∧ ∀ k, __idVariable
           (self (assign_all [Some "name"; None; Some "id"]
                    (mkWorld (constructed three_points None) [])))
         = Some (Some k) →
      ∃ arr, getIdVariableOrder
               (assign_all [Some "name"; None; Some "id"]
                  (mkWorld (constructed three_points None) []))
             = (OK arr,
                assign_all [Some "name"; None; Some "id"]
                  (mkWorld (constructed three_points None) []))
             ∧ is_unique arr = true
             ∧ ∀ rows, (getPropertiesAsLists [Some k]
                          (mkWorld (constructed three_points None) [])).1
                       = OK rows →
                       kept rows → NoDup (concat rows).
Proof.
  split; [vm_compute; reflexivity|].
  apply (idVariable_column_unique three_points None []
           (constructed three_points None) []
           [Some "name"; None; Some "id"]).
  vm_compute. reflexivity.
Defined.

Lemma getFeatures_by_value_witness :
  three_points_by_id = three_points_by_id
  ∧ Forall2 (λ v f, f ∈ features (self three_points_by_id)
                    ∧ properties f !! "id" = Some v
                    ∧ ∀ j f', features (self three_points_by_id) !! j = Some f'
                              → properties f' !! "id" = Some v → f' = f)
            [30%Z; 10%Z]
            (match getFeatures (Some [30%Z; 10%Z]) three_points_by_id with
             | (OK fs, _) => fs
             | _ => []
             end).
Proof.
  apply (getFeatures_by_value three_points_by_id "id"
           [[10%Z]; [20%Z]; [30%Z]] [30%Z; 10%Z] _ three_points_by_id).
  - apply (new_FeatureCollection_consistent three_points (Some "id") []
             _ []). vm_compute. reflexivity.
  - apply (new_FeatureCollection_indexed three_points (Some "id") []
             _ []). vm_compute. reflexivity.
  - vm_compute. reflexivity.
  - vm_compute. reflexivity.
  - reflexivity.
  - discriminate.
  - vm_compute. reflexivity.
Defined.

Lemma save_load_idVariable_witness :
  ∃ d, saveAsGeoJson three_points_by_id = (OK d, three_points_by_id)
       ∧ new_FeatureCollection d None (warned three_points_by_id)
         = (OK (with_idVariable (self three_points_by_id) (Some None)),
            warned three_points_by_id)
       ∧ new_FeatureCollection d (Some "id") (warned three_points_by_id)
         = (OK (self three_points_by_id), warned three_points_by_id).
Proof.
  apply (save_load_idVariable three_points_by_id "id").
  - apply (new_FeatureCollection_consistent three_points (Some "id") []
             _ []). vm_compute. reflexivity.
  - apply (new_FeatureCollection_indexed three_points (Some "id") []
             _ []). vm_compute. reflexivity.
  - vm_compute. reflexivity.
Defined.

Lemma is_unique_rows_witness :
  (2 = 1 → (is_unique [[1%Z; 2%Z]; [3%Z; 4%Z]] = true
            ↔ NoDup (concat [[1%Z; 2%Z]; [3%Z; 4%Z]])))
  ∧ (2 ≤ 2 → [[1%Z; 2%Z]; [3%Z; 4%Z]] ≠ [] →
     NoDup (concat [[1%Z; 2%Z]; [3%Z; 4%Z]]) →
     is_unique [[1%Z; 2%Z]; [3%Z; 4%Z]] = false).
Proof.
  apply (is_unique_rows [[1%Z; 2%Z]; [3%Z; 4%Z]] 2). by repeat constructor.
Defined.

Lemma new_FeatureCollection_idVariable_witness :
  new_FeatureCollection two_points_same_id (Some "id") []
  = (OK (with_idVariable (constructed two_points_same_id None) None),
     [not_unique_msg "id"])
  ∧ new_FeatureCollection three_points (Some "id") []
    = (OK (with_idVariable (constructed three_points None)
             (Some (Some "id"))), [])
  ∧ new_FeatureCollection three_points (Some "name") []
    = (Raise (KeyError (KStr "name")), []).
Proof.
  split; [|split].
  - destruct (new_FeatureCollection_idVariable two_points_same_id []
                (constructed two_points_same_id None) [] "id")
      as (_ & _ & _ & H & _); [vm_compute; reflexivity|].
    rewrite (H [[5%Z]; [5%Z]]); [|vm_compute; reflexivity|reflexivity].
    destruct (decide _) as [Hd|_]; [|done].
    apply NoDup_cons in Hd as [Hd _]. destruct Hd. by left.
  - destruct (new_FeatureCollection_idVariable three_points []
                (constructed three_points None) [] "id")
      as (_ & _ & _ & H & _); [vm_compute; reflexivity|].
    rewrite (H [[10%Z]; [20%Z]; [30%Z]]);
      [|vm_compute; reflexivity|reflexivity].
    destruct (decide _) as [_|Hd]; [done|].
    destruct Hd. apply (bool_decide_unpack _). by vm_compute.
  - destruct (new_FeatureCollection_idVariable three_points []
                (constructed three_points None) [] "name")
      as (_ & _ & H & _); [vm_compute; reflexivity|].
    apply H. vm_compute. reflexivity.
Defined.

(** ** Property values that are lists

    Two points whose [id] is a list of integers. numpy reads the lists as a
    further dimension of the column: [np.unique] and [flatten] then see the
    integers in the lists, not the lists. *)

(** C3, where the code departs from it. Both features hold the list
    [[1, 2]] as [id], so the values of [id] are not pairwise distinct; yet
    assigning [id] to [idVariable] emits no warning and binds the key, and
    a read of [idVariable], [None] before, gives [id] afterwards:
    [is_unique] finds the two distinct integers [1] and [2] for the two
    rows of the array. *)
Theorem idVariable_set_equal_lists :
  ∃ fc f0 f1,
    constructed_with_lists [1%Z; 2%Z] [1%Z; 2%Z] None = (OK fc, [])
    ∧ features fc = [f0; f1]
    ∧ properties f0 !! "id" = Some (Items [1%Z; 2%Z])
    ∧ properties f1 !! "id" = Some (Items [1%Z; 2%Z])
    ∧ getPropertiesAsArray [Some "id"] (mkWorld fc [])
      = (OK [[Atom 1; Atom 2]; [Atom 1; Atom 2]], mkWorld fc [])
    ∧ idVariable_get (mkWorld fc []) = (OK None, mkWorld fc [])
    ∧ idVariable_set (Some "id") (mkWorld fc [])
      = (OK (), mkWorld (with_idVariable fc (Some (Some "id"))) [])
    ∧ idVariable_get (mkWorld (with_idVariable fc (Some (Some "id"))) [])
      = (OK (Some "id"), mkWorld (with_idVariable fc (Some (Some "id"))) []).
Proof.
  do 3 eexists. split; [vm_compute; reflexivity|].
  split; [reflexivity|]. repeat split; vm_compute; reflexivity.
Qed.

(** C4, where the code departs from it. The features hold the lists
    [[1, 1]] and [[2, 2]] as [id], which the constructor accepts as
    [idVariable]; the column that [getFeatureIds] searches is then
    [[1, 1, 2, 2]]. Looking up the value [[2, 2]] of the feature of id [1]
    raises [ValueError], and looking up [2], which is in the column,
    returns the id [2], which is no feature. *)
Theorem getFeatureIds_of_lists :
  ∃ fc f0 f1,
    constructed_with_lists [1%Z; 1%Z] [2%Z; 2%Z] (Some "id") = (OK fc, [])
    ∧ features fc = [f0; f1]
    ∧ properties f1 !! "id" = Some (Items [2%Z; 2%Z])
    ∧ idVariable_get (mkWorld fc []) = (OK (Some "id"), mkWorld fc [])
    ∧ getIdVariableOrder (mkWorld fc [])
      = (OK [[Atom 1; Atom 1]; [Atom 2; Atom 2]], mkWorld fc [])
    ∧ getFeatureIds [Items [2%Z; 2%Z]] (mkWorld fc [])
      = (Raise ValueError, mkWorld fc [])
    ∧ getFeatureIds [Atom 2] (mkWorld fc []) = (OK [2], mkWorld fc [])
    ∧ features fc !! 2 = None
    ∧ getFeatures (Some [Atom 2]) (mkWorld fc [])
      = (Raise (KeyError (KInt 2)), mkWorld fc []).
Proof.
  do 3 eexists. split; [vm_compute; reflexivity|].
  split; [reflexivity|]. repeat split; vm_compute; reflexivity.
Qed.

(** C10, where the code departs from it. Both features hold the list
    [[1, 2]] as [id]: the designated property has duplicate values, yet the
    constructor called with [id] as [idVariable] emits no warning and binds
    the key, and a read of [idVariable] returns [id]. *)
Theorem constructor_binds_equal_lists :
  ∃ fc f0 f1,
    constructed_with_lists [1%Z; 2%Z] [1%Z; 2%Z] (Some "id") = (OK fc, [])
    ∧ features fc = [f0; f1]
    ∧ properties f0 !! "id" = Some (Items [1%Z; 2%Z])
    ∧ properties f1 !! "id" = Some (Items [1%Z; 2%Z])
    ∧ __idVariable fc = Some (Some "id")
    ∧ idVariable_get (mkWorld fc []) = (OK (Some "id"), mkWorld fc []).
Proof.
  do 3 eexists. split; [vm_compute; reflexivity|].
  split; [reflexivity|]. repeat split; vm_compute; reflexivity.
Qed.

End Scenarios.
